(** * trim_includes: a shallow embedding of [trim_includes.py]

    The script finds the leading block of [#include] lines of a C file,
    asks the compiler whether the file still builds with each include
    taken out, and (with [--fix]) rewrites the block.  Python [str] values
    are Rocq strings whose characters are read as code points below 256;
    [set[str]] is a [gset string]; the file system, the temporary files,
    the two console streams and the compiler are an explicit world that the
    effectful functions thread through a state-and-exception monad.  The
    world has ordinary files, paths that cannot be read or cannot be
    written, and compilers that cannot be started or that remove the object
    file they were to write: each makes the script end with an exception,
    since it has no handler. *)

From Stdlib Require Import Ascii String ZArith Lia Sorted.
From stdpp Require Import base option list strings gmap sets pretty.

Local Open Scope Z_scope.
Local Open Scope nat_scope.

(** ** Text primitives of the Python runtime *)

Module Py.

(** The one-character string holding a line feed. *)
Definition LF : string := String "010" "".

(** [str.isspace] on one character; [\s] of [re] on a [str] pattern uses
    the same table. Code points below 256 only. *)
Definition is_space (c : ascii) : bool :=
  let n := nat_of_ascii c in
  ((9 <=? n) && (n <=? 13)) || ((28 <=? n) && (n <=? 32))
  || (n =? 133) || (n =? 160).

Fixpoint lstrip (s : string) : string :=
  match s with
  | String c r => if is_space c then lstrip r else s
  | EmptyString => EmptyString
  end.

Definition rstrip (s : string) : string := String.rev (lstrip (String.rev s)).

(** [s.strip()] *)
Definition strip (s : string) : string := rstrip (lstrip s).

(** Truth value of a [str]: non-empty. *)
Definition truthy (s : string) : bool :=
  match s with EmptyString => false | String _ _ => true end.

(** [s.startswith(p)], returning what follows the prefix. *)
Fixpoint strip_prefix (p s : string) : option string :=
  match p, s with
  | EmptyString, _ => Some s
  | String a p', String b s' =>
      if Ascii.eqb a b then strip_prefix p' s' else None
  | String _ _, EmptyString => None
  end.

Definition startswith (s p : string) : bool :=
  match strip_prefix p s with Some _ => true | None => false end.

(** [s.endswith(suf)]: some tail of [s] is [suf]. *)
Fixpoint endswith (s suf : string) : bool :=
  if String.eqb s suf then true
  else match s with
       | EmptyString => false
       | String _ r => endswith r suf
       end.

(** [str.join] of the empty string over [lines]. *)
Fixpoint join (lines : list string) : string :=
  match lines with
  | [] => EmptyString
  | l :: ls => l +:+ join ls
  end.

End Py.

(** ** The include pattern

    [INCLUDE_RE] is: start of line, white space, [#], white space,
    [include], white space, an opening [<] or double quote, one or more
    characters that are neither [>] nor a double quote (group 2), and a
    closing [>] or double quote; it is used with [re.match].  No piece of the
    pattern can consume what the next piece starts with, so the greedy match is found without backtracking. *)

(** The double quote character. *)
Definition DQ : ascii := "034".

Definition is_open_delim (c : ascii) : bool :=
  Ascii.eqb c "<" || Ascii.eqb c DQ.

Definition is_close_delim (c : ascii) : bool :=
  Ascii.eqb c ">" || Ascii.eqb c DQ.

(** The longest run of characters other than [>] and the double quote,
    and the rest. *)
Fixpoint span_target (s : string) : string * string :=
  match s with
  | EmptyString => (EmptyString, EmptyString)
  | String c r =>
      if is_close_delim c then (EmptyString, s)
      else let '(t, rest) := span_target r in (String c t, rest)
  end.

(** [INCLUDE_RE.match(line)]: [Some target] is a match with
    [m.group(2) = target]. *)
Definition INCLUDE_RE_match (line : string) : option string :=
  r1 ← Py.strip_prefix "#" (Py.lstrip line);
  r2 ← Py.strip_prefix "include" (Py.lstrip r1);
  match Py.lstrip r2 with
  | String q r3 =>
      if is_open_delim q then
        match span_target r3 with
        | (String c t, String _ _) => Some (String c t)
        | _ => None
        end
      else None
  | EmptyString => None
  end.

(** [not line.strip()] *)
Definition blank (line : string) : bool := negb (Py.truthy (Py.strip line)).

Record IncludeLine := mkIncludeLine {
  idx : nat;
  text : string;
  target : string
}.

(** ** Include Block Locator *)

(** The [for i, line in enumerate(lines)] loop that looks for [start]. *)
Fixpoint find_start (lines : list string) (i : nat) : option nat :=
  match lines with
  | [] => None
  | line :: rest =>
      match INCLUDE_RE_match line with
      | Some _ => Some i
      | None => find_start rest (S i)
      end
  end.

(** The [while] loop; [rest] is [lines[end:]]. *)
Fixpoint scan_block (rest : list string) (end_ : nat)
    (includes : list IncludeLine) : nat * list IncludeLine :=
  match rest with
  | [] => (end_, includes)
  | line :: rest' =>
      match INCLUDE_RE_match line with
      | Some tg =>
          scan_block rest' (S end_) (includes ++ [mkIncludeLine end_ line tg])
      | None =>
          if blank line then scan_block rest' (S end_) includes
          else (end_, includes)
      end
  end.

Definition find_include_block (lines : list string)
    : option (nat * nat * list IncludeLine) :=
  match find_start lines 0 with
  | None => None
  | Some start =>
      let '(end_, includes) := scan_block (drop start lines) start [] in
      Some (start, end_, includes)
  end.

(** ** Rewriter *)

(** The line appended to [new_block] for a kept include. *)
Definition with_newline (t : string) : string :=
  if Py.endswith t Py.LF then t else t +:+ Py.LF.

(** The [for inc in include_block] loop of [rebuild_file]. *)
Fixpoint rebuild_block (include_block : list IncludeLine)
    (keep_texts seen : gset string) (new_block : list string) : list string :=
  match include_block with
  | [] => new_block
  | inc :: rest =>
      if bool_decide (text inc ∈ keep_texts)
         && negb (bool_decide (text inc ∈ seen))
      then rebuild_block rest keep_texts ({[ text inc ]} ∪ seen)
             (new_block ++ [with_newline (text inc)])
      else rebuild_block rest keep_texts seen new_block
  end.

(** [end >= len(lines) or lines[end].strip()] *)
Definition needs_separator (lines : list string) (end_ : nat) : bool :=
  match lines !! end_ with
  | None => true
  | Some l => Py.truthy (Py.strip l)
  end.

Definition rebuild_file (lines : list string) (start end_ : nat)
    (include_block : list IncludeLine) (keep_texts : gset string)
    : list string :=
  let new_block := rebuild_block include_block keep_texts ∅ [] in
  let new_block :=
    if negb (bool_decide (new_block = [])) && needs_separator lines end_
    then new_block ++ [Py.LF] else new_block in
  take start lines ++ new_block ++ drop end_ lines.

(** ** The world the script runs in *)

Inductive exn := OSError | ValueError.

(** What [subprocess.run] hands back. *)
Record CompletedProcess := mkProc {
  returncode : Z;
  proc_stdout : string;
  proc_stderr : string
}.

(** What a run of the compiler comes to: the process [subprocess.run]
    hands back, and whether the object file named after [-o], which
    [compile_check] made beforehand, is still there when the compiler ends.
    A compiler may remove its output file when the unit fails. *)
Record CompilerRun := mkRun {
  completed : CompletedProcess;
  object_left : bool
}.

(** The external compiler: from the executable name, the flags that follow
    the output file on the command line and the text of the translation
    unit, either a run that ended or [None] when the program cannot be
    started, in which case [subprocess.run] raises [OSError]. The compiler
    leaves the temporary source file in place. *)
Definition toolchain := string → list string → string → option CompilerRun.

(** A path that exists and is not an ordinary file. *)
Inductive node :=
  | ReadOnly (t : string)
      (* text that can be read; writing raises PermissionError *)
  | Unreadable (e : exn) (writable : bool).
      (* reading raises [e]: a directory or a file the process may not read
         ([OSError]), bytes that do not decode ([ValueError]) *)

Record world := mkWorld {
  disk : gmap string string;     (* ordinary files, path to text: they can
                                    be read and written *)
  tmpdir : gmap nat string;      (* live temporary files by serial number *)
  console_out : list string;
  console_err : list string;
  invoked : list string;         (* texts given to the compiler, oldest first *)
  written : list (string * string); (* calls of write_text that returned,
                                       oldest first *)
  special : gmap string node     (* the other paths that exist; looked at
                                    for a path that is not in [disk] *)
}.

Inductive res (A : Type) := Ok (a : A) | Raise (e : exn).
Arguments Ok {A} a.
Arguments Raise {A} e.

Definition M (A : Type) : Type := world → res A * world.

Global Instance M_ret : MRet M := λ A a w, (Ok a, w).
Global Instance M_bind : MBind M := λ A B f m w,
  match m w with
  | (Ok a, w') => f a w'
  | (Raise e, w') => (Raise e, w')
  end.

Definition raise {A} (e : exn) : M A := λ w, (Raise e, w).

Definition when (b : bool) (m : M unit) : M unit := if b then m else mret tt.

Definition print (line : string) : M unit := λ w,
  (Ok tt, mkWorld (disk w) (tmpdir w) (console_out w ++ [line])
            (console_err w) (invoked w) (written w) (special w)).

Definition print_err (line : string) : M unit := λ w,
  (Ok tt, mkWorld (disk w) (tmpdir w) (console_out w)
            (console_err w ++ [line]) (invoked w) (written w) (special w)).

Definition set_tmpdir (t : gmap nat string) (w : world) : world :=
  mkWorld (disk w) t (console_out w) (console_err w) (invoked w) (written w)
    (special w).

(** Name of the temporary file with serial number [n]. *)
Definition tmp_name (n : nat) (suffix : string) : string :=
  "/tmp/tmp" +:+ pretty n +:+ suffix.

(** [tempfile.NamedTemporaryFile(delete=False)], written with [content]
    and closed: a file under a name not in use. *)
Definition NamedTemporaryFile (content : string) : M nat := λ w,
  let n := fresh (dom (tmpdir w)) in
  (Ok n, set_tmpdir (<[n := content]> (tmpdir w)) w).

(** [os.unlink] on a temporary file. *)
Definition unlink (n : nat) : M unit := λ w,
  match tmpdir w !! n with
  | Some _ => (Ok tt, set_tmpdir (delete n (tmpdir w)) w)
  | None => (Raise OSError, w)
  end.

(** [path.read_text()] with the universal newlines of text mode. *)
Definition CR : ascii := "013".
Definition NL : ascii := "010".

Fixpoint universal_newlines (s : string) : string :=
  match s with
  | EmptyString => EmptyString
  | String c r =>
      if Ascii.eqb c CR then
        match r with
        | String c' r' =>
            if Ascii.eqb c' NL then String NL (universal_newlines r')
            else String NL (universal_newlines r)
        | EmptyString => String NL EmptyString
        end
      else String c (universal_newlines r)
  end.

Definition read_text (path : string) : M string := λ w,
  match disk w !! path with
  | Some t => (Ok (universal_newlines t), w)
  | None =>
      match special w !! path with
      | Some (ReadOnly t) => (Ok (universal_newlines t), w)
      | Some (Unreadable e _) => (Raise e, w)
      | None => (Raise OSError, w)
      end
  end.

(** [path.exists()] *)
Definition exists_ (path : string) (w : world) : bool :=
  bool_decide (is_Some (disk w !! path) ∨ is_Some (special w !! path)).

(** The world after [path.write_text(t)] returned: [path] is an ordinary
    file that holds [t]. *)
Definition wrote (path t : string) (w : world) : world :=
  mkWorld (<[path := t]> (disk w)) (tmpdir w) (console_out w)
    (console_err w) (invoked w) (written w ++ [(path, t)])
    (match disk w !! path with
     | Some _ => special w
     | None => delete path (special w)
     end).

Definition write_text (path : string) (t : string) : M unit := λ w,
  match disk w !! path with
  | Some _ => (Ok tt, wrote path t w)
  | None =>
      match special w !! path with
      | Some (ReadOnly _) | Some (Unreadable _ false) => (Raise OSError, w)
      | Some (Unreadable _ true) | None => (Ok tt, wrote path t w)
      end
  end.

(** Line boundaries of [str.splitlines], code points below 256. *)
Definition is_linebreak (c : ascii) : bool :=
  let n := nat_of_ascii c in
  ((10 <=? n) && (n <=? 13)) || ((28 <=? n) && (n <=? 30)) || (n =? 133).

(** [s.splitlines(keepends)] *)
Fixpoint splitlines (keepends : bool) (s : string) : list string :=
  match s with
  | EmptyString => []
  | String c r =>
      if is_linebreak c then
        match r with
        | String c' r' =>
            if Ascii.eqb c CR && Ascii.eqb c' NL
            then (if keepends then String c (String c' EmptyString) else EmptyString)
                   :: splitlines keepends r'
            else (if keepends then String c EmptyString else EmptyString)
                   :: splitlines keepends r
        | EmptyString => [if keepends then String c EmptyString else EmptyString]
        end
      else
        match splitlines keepends r with
        | [] => [String c EmptyString]
        | l :: ls => String c l :: ls
        end
  end.

(** [str.join] of one blank over [cmd]. *)
Fixpoint join_sp (cmd : list string) : string :=
  match cmd with
  | [] => EmptyString
  | [a] => a
  | a :: rest => a +:+ " " +:+ join_sp rest
  end.

(** ** Build flags from the Makefile *)

(** [s.split(sep, 1)] for a one-character separator: the text before the
    first [sep] and, when there is one, the text after it. *)
Fixpoint split_once (sep : ascii) (s : string) : string * option string :=
  match s with
  | EmptyString => (EmptyString, None)
  | String c r =>
      if Ascii.eqb c sep then (EmptyString, Some r)
      else let '(a, b) := split_once sep r in (String c a, b)
  end.

(** [re.findall] of the pattern [$(] , one or more characters other than a
    closing parenthesis (the group), [)].  The scanner is in one of three
    places: outside a reference, just after a dollar sign, or inside the
    parentheses with the characters read so far. *)
Inductive ref_state := RefIdle | RefDollar | RefName (acc : string).

Fixpoint findall_refs (st : ref_state) (s : string) : list string :=
  match s with
  | EmptyString => []
  | String c r =>
      match st with
      | RefIdle =>
          findall_refs (if Ascii.eqb c "$" then RefDollar else RefIdle) r
      | RefDollar =>
          if Ascii.eqb c "(" then findall_refs (RefName EmptyString) r
          else findall_refs (if Ascii.eqb c "$" then RefDollar else RefIdle) r
      | RefName acc =>
          if Ascii.eqb c ")" then
            match acc with
            | EmptyString => findall_refs RefIdle r
            | String _ _ => acc :: findall_refs RefIdle r
            end
          else findall_refs (RefName (acc +:+ String c EmptyString)) r
      end
  end.

(** [s.replace(old, new)] for a non-empty [old]; [skip] counts the
    characters of a replaced occurrence still to pass over. *)
Fixpoint replace_go (old new : string) (skip : nat) (s : string) : string :=
  match s with
  | EmptyString => EmptyString
  | String c r =>
      match skip with
      | S k => replace_go old new k r
      | O =>
          if Py.startswith s old
          then new +:+ replace_go old new (String.length old - 1) r
          else String c (replace_go old new 0 r)
      end
  end.

Definition replace (s old new : string) : string := replace_go old new 0 s.

(** The first loop of [parse_make_vars] over the lines of the file. *)
Fixpoint scan_assignments (raws : list string) (vars : gmap string string)
    : gmap string string :=
  match raws with
  | [] => vars
  | raw :: rest =>
      let line := Py.strip raw in
      match split_once "=" line with
      | (name, Some val) =>
          if negb (Py.truthy line) || Py.startswith line "#" then
            scan_assignments rest vars
          else
            let name := Py.strip name in
            let val := Py.strip (split_once "#" val).1 in
            scan_assignments rest (<[name := val]> vars)
      | (_, None) => scan_assignments rest vars
      end
  end.

(** The nested [expand]. *)
Definition expand (vars : gmap string string) (value : string) : string :=
  foldl (λ value var,
           replace value ("$(" +:+ var +:+ ")") (default EmptyString (vars !! var)))
        value (findall_refs RefIdle value).

Definition parse_make_vars (makefile : string) : M (gmap string string) := λ w,
  if negb (exists_ makefile w) then (Ok ∅, w)
  else
    (content ← read_text makefile;
     let vars := scan_assignments (splitlines false content) ∅ in
     mret (expand vars <$> vars)) w.

(** [shlex.split]: the POSIX lexer with [whitespace_split], no comment
    characters. The lexer is between tokens, in a word, inside quotes, or
    just after a backslash. *)
Inductive lex_state := LexSpace | LexWord | LexQuote (q : ascii) | LexEscape.

Definition shlex_whitespace (c : ascii) : bool :=
  Ascii.eqb c " " || Ascii.eqb c "009" || Ascii.eqb c CR || Ascii.eqb c NL.

Definition shlex_quote (c : ascii) : bool :=
  Ascii.eqb c "'" || Ascii.eqb c DQ.

Definition BACKSLASH : ascii := "092".

(** [escaped] is the state to return to after an escape; [None] is the
    [ValueError] of an open quotation or a trailing backslash. *)
Fixpoint shlex_go (s : string) (st escaped : lex_state) (token : string)
    (quoted : bool) : option (list string) :=
  match s with
  | EmptyString =>
      match st with
      | LexSpace => Some []
      | LexWord => Some (if Py.truthy token || quoted then [token] else [])
      | LexQuote _ | LexEscape => None
      end
  | String c r =>
      match st with
      | LexSpace =>
          if shlex_whitespace c then shlex_go r LexSpace escaped token quoted
          else if Ascii.eqb c BACKSLASH then shlex_go r LexEscape LexWord token quoted
          else if shlex_quote c then shlex_go r (LexQuote c) escaped token quoted
          else shlex_go r LexWord escaped (String c EmptyString) quoted
      | LexQuote q =>
          if Ascii.eqb c q then shlex_go r LexWord escaped token true
          else if Ascii.eqb c BACKSLASH && Ascii.eqb q DQ
          then shlex_go r LexEscape (LexQuote q) token true
          else shlex_go r (LexQuote q) escaped (token +:+ String c EmptyString) true
      | LexEscape =>
          let token :=
            match escaped with
            | LexQuote q =>
                if negb (Ascii.eqb c BACKSLASH) && negb (Ascii.eqb c q)
                then token +:+ String BACKSLASH EmptyString else token
            | _ => token
            end in
          shlex_go r escaped escaped (token +:+ String c EmptyString) quoted
      | LexWord =>
          if shlex_whitespace c then
            if Py.truthy token || quoted
            then cons token <$> shlex_go r LexSpace LexSpace EmptyString false
            else shlex_go r LexSpace escaped token quoted
          else if shlex_quote c then shlex_go r (LexQuote c) escaped token quoted
          else if Ascii.eqb c BACKSLASH then shlex_go r LexEscape LexWord token quoted
          else shlex_go r LexWord escaped (token +:+ String c EmptyString) quoted
      end
  end.

Definition shlex_split (s : string) : M (list string) :=
  match shlex_go s LexSpace LexSpace EmptyString false with
  | Some toks => mret toks
  | None => raise ValueError
  end.

(** POSIX paths of [pathlib], as strings. *)
Module pathlib.

(** The components between slashes. *)
Fixpoint parts (s : string) : list string :=
  match s with
  | EmptyString => [EmptyString]
  | String c r =>
      if Ascii.eqb c "/" then EmptyString :: parts r
      else match parts r with
           | [] => [String c EmptyString]
           | p :: ps => String c p :: ps
           end
  end.

Definition names (s : string) : list string :=
  filter (λ p, p ≠ EmptyString ∧ p ≠ ".") (parts s).

(** One slash, or two when the path starts with exactly two. *)
Definition root (s : string) : string :=
  match s with
  | String "/" (String "/" (String "/" _)) => "/"
  | String "/" (String "/" _) => "//"
  | String "/" _ => "/"
  | _ => EmptyString
  end.

Fixpoint join_names (ns : list string) : string :=
  match ns with
  | [] => EmptyString
  | [n] => n
  | n :: rest => n +:+ "/" +:+ join_names rest
  end.

Definition render (rt : string) (ns : list string) : string :=
  match rt, ns with
  | EmptyString, [] => "."
  | _, _ => rt +:+ join_names ns
  end.

(** [str(Path(s))] *)
Definition Path (s : string) : string := render (root s) (names s).

Definition is_absolute (s : string) : bool := Py.truthy (root s).

(** [Path(s).parent] *)
Definition parent (s : string) : string :=
  render (root s) (removelast (names s)).

(** [base / part] *)
Definition joinpath (base part : string) : string :=
  if is_absolute part then Path part
  else render (root base) (names base ++ names part).

End pathlib.

Section Flags.

(** [Path.resolve]: the absolute path with symbolic links followed,
    which depends on the working directory and on the links of the file
    system. *)
Variable resolve : string → string.

(** The loop of [_normalize_includes]. *)
Fixpoint _normalize_includes (include_tokens : list string)
    (base_dir : string) : list string :=
  match include_tokens with
  | [] => []
  | tok :: rest =>
      if negb (Py.truthy tok) then _normalize_includes rest base_dir
      else
        let path_part :=
          match Py.strip_prefix "-I" tok with
          | Some r => r
          | None => tok
          end in
        let path := pathlib.Path path_part in
        let path :=
          if negb (pathlib.is_absolute path)
          then resolve (pathlib.joinpath base_dir path_part) else path in
        ("-I" +:+ path) :: _normalize_includes rest base_dir
  end.

Definition makefile_flags (makefile : string)
    : M (list string * list string) :=
  vars ← parse_make_vars makefile;
  include_tokens ←
    shlex_split (default EmptyString ((vars : gmap string string) !! "INCLUDES"));
  let base_dir := resolve (pathlib.parent makefile) in
  let includes := _normalize_includes include_tokens base_dir in
  cflags ← shlex_split (default EmptyString (vars !! "CFLAGS"));
  mret (includes, cflags).

End Flags.

(** The parsed command line. *)
Record Args := mkArgs {
  arg_src_dir : string;
  arg_compiler : string;
  arg_makefile : string;
  arg_include : option (list string);
  arg_cflag : option (list string);
  arg_file : option (list string);
  arg_fix : bool;
  arg_verbose : bool
}.

(** ** Compilation Oracle *)

Section Pipeline.

Variable cc : toolchain.

(** [subprocess.run(cmd, capture_output=capture, text=True)] where [cmd]
    is [compiler -c source -o obj flags]: with [capture] the output is
    kept in the result, without it the process writes to the console and
    the result holds none. When the compiler ends, the object file is
    there or not as the compiler left it. *)
Definition subprocess_run (compiler : string) (source obj : nat)
    (flags : list string) (capture : bool) : M CompletedProcess := λ w,
  let unit_text := default EmptyString (tmpdir w !! source) in
  match cc compiler flags unit_text with
  | None => (Raise OSError, w)
  | Some r =>
      let p := completed r in
      let tmp := if object_left r then tmpdir w else delete obj (tmpdir w) in
      if capture then
        (Ok p, mkWorld (disk w) tmp (console_out w) (console_err w)
                 (invoked w ++ [unit_text]) (written w) (special w))
      else
        (Ok (mkProc (returncode p) EmptyString EmptyString),
         mkWorld (disk w) tmp
           (console_out w ++ (if Py.truthy (proc_stdout p) then [proc_stdout p] else []))
           (console_err w ++ (if Py.truthy (proc_stderr p) then [proc_stderr p] else []))
           (invoked w ++ [unit_text]) (written w) (special w))
  end.

Definition compile_check (source : nat) (compiler : string)
    (includes cflags : list string) (verbose : bool) : M bool :=
  tmp_obj ← NamedTemporaryFile EmptyString;
  let cmd := [compiler; "-c"; tmp_name source ".c"; "-o"; tmp_name tmp_obj ".o"]
               ++ cflags ++ includes in
  proc ← subprocess_run compiler source tmp_obj (cflags ++ includes)
            (negb verbose);
  _ ← when verbose (
        _ ← print (join_sp cmd);
        _ ← when (Py.truthy (proc_stdout proc)) (print (proc_stdout proc));
        when (Py.truthy (proc_stderr proc)) (print_err (proc_stderr proc)));
  _ ← unlink tmp_obj;
  mret (returncode proc =? 0)%Z.

Definition write_temp (lines : list string) : M nat :=
  NamedTemporaryFile (Py.join lines).

(** ** Necessity Prover *)

(** The [for inc in include_block] loop of [determine_needed]. *)
Fixpoint classify (include_block : list IncludeLine) (lines : list string)
    (compiler : string) (includes cflags : list string) (verbose : bool)
    (needed : gset string) : M (gset string) :=
  match include_block with
  | [] => mret needed
  | inc :: rest =>
      let trimmed := delete (idx inc) lines in
      tmp_path ← write_temp trimmed;
      ok ← compile_check tmp_path compiler includes cflags verbose;
      _ ← unlink tmp_path;
      classify rest lines compiler includes cflags verbose
        (if ok : bool then needed else {[ text inc ]} ∪ needed)
  end.

Definition determine_needed (file_path : string)
    (include_block : list IncludeLine) (lines : list string)
    (compiler : string) (includes cflags : list string) (verbose : bool)
    : M (gset string * bool) :=
  baseline_path ← write_temp lines;
  baseline_ok ← compile_check baseline_path compiler includes cflags verbose;
  _ ← unlink baseline_path;
  if negb (baseline_ok : bool) then mret ((∅ : gset string), false)
  else
    needed ← classify include_block lines compiler includes cflags verbose ∅;
    mret (needed, true).

Definition compile_lines (lines : list string) (compiler : string)
    (includes cflags : list string) (verbose : bool) : M bool :=
  temp_path ← write_temp lines;
  ok ← compile_check temp_path compiler includes cflags verbose;
  _ ← unlink temp_path;
  mret ok.

(** ** Rewriter and repair loop *)

(** The [for inc in removed] loop with its [else] branch: [Some keep_set]
    after a [break], [None] when the loop runs to its end. *)
Fixpoint repair (removed : list IncludeLine) (keep_set : gset string)
    (lines : list string) (start end_ : nat)
    (include_block : list IncludeLine)
    (compiler : string) (includes cflags : list string) (verbose : bool)
    : M (option (gset string)) :=
  match removed with
  | [] => mret None
  | inc :: rest =>
      let keep_set := {[ text inc ]} ∪ keep_set in
      let candidate_lines :=
        rebuild_file lines start end_ include_block keep_set in
      ok ← compile_lines candidate_lines compiler includes cflags verbose;
      if ok : bool then mret (Some keep_set)
      else repair rest keep_set lines start end_ include_block
             compiler includes cflags verbose
  end.

(** The [for inc in removed] loop of check mode. *)
Fixpoint print_removable (removed : list IncludeLine) : M unit :=
  match removed with
  | [] => mret tt
  | inc :: rest =>
      _ ← print ("    removable: " +:+ Py.strip (text inc));
      print_removable rest
  end.

Definition process_file (path : string) (args : Args)
    (includes cflags : list string) : M bool :=
  content ← read_text path;
  let lines := splitlines true content in
  match find_include_block lines with
  | None =>
      _ ← when (arg_verbose args)
            (print ("[skip] " +:+ path +:+ ": no include block found"));
      mret true
  | Some (start, end_, include_block) =>
      '(needed, baseline_ok) ←
        determine_needed path include_block lines (arg_compiler args)
          includes cflags (arg_verbose args);
      if negb baseline_ok then
        _ ← print ("[error] " +:+ path
                   +:+ ": failed to compile baseline; skipping");
        mret false
      else
        let kept :=
          filter (λ inc, text inc ∈ (needed : gset string)) include_block in
        let removed :=
          filter (λ inc, text inc ∉ (needed : gset string)) include_block in
        let keep_set : gset string := list_to_set (text <$> kept) in
        if arg_fix args then
          let candidate_lines :=
            rebuild_file lines start end_ include_block keep_set in
          ok ← compile_lines candidate_lines (arg_compiler args)
                 includes cflags (arg_verbose args);
          repaired ←
            (if ok : bool then mret (Some keep_set)
             else repair removed keep_set lines start end_ include_block
                    (arg_compiler args) includes cflags (arg_verbose args));
          match repaired with
          | None =>
              _ ← print ("[error] " +:+ path +:+
                   ": trimmed includes fail to compile; keeping original block");
              mret false
          | Some keep_set =>
              let new_lines :=
                rebuild_file lines start end_ include_block keep_set in
              _ ← (if bool_decide (new_lines ≠ lines) then
                     _ ← write_text path (Py.join new_lines);
                     print ("[fix] " +:+ path +:+ ": kept "
                            +:+ pretty (size keep_set) +:+ ", removed "
                            +:+ pretty (Z.of_nat (length include_block)
                                        - Z.of_nat (size keep_set))%Z)
                   else
                     when (arg_verbose args)
                       (print ("[noop] " +:+ path +:+ ": no changes needed")));
              mret true
          end
        else
          _ ← print ("[check] " +:+ path +:+ ": needed "
                     +:+ pretty (length kept) +:+ ", removable "
                     +:+ pretty (length removed));
          _ ← print_removable removed;
          mret true
  end.

(** The [for path in files] loop of [main]. *)
Fixpoint process_all (files : list string) (args : Args)
    (includes cflags : list string) (ok : bool) : M bool :=
  match files with
  | [] => mret ok
  | path :: rest =>
      r ← process_file path args includes cflags;
      process_all rest args includes cflags (r && ok)
  end.

End Pipeline.

(** ** Driver *)

Section Driver.

Variable cc : toolchain.
Variable resolve : string → string.

(** [sorted(src_dir.rglob(...))] for the C sources: the directory walk is
    taken as given. *)
Variable rglob_c : gmap string string → string → list string.

Definition collect_files (src_dir : string) (explicit : option (list string))
    : M (list string) := λ w,
  match explicit with
  | Some (p :: ps) => (Ok (pathlib.Path <$> (p :: ps)), w)
  | _ => (Ok (rglob_c (disk w) src_dir), w)
  end.

(** [main] after [parse_args]. *)
Definition main (args : Args) : M Z :=
  '(mf_includes, mf_cflags) ←
    makefile_flags resolve (pathlib.Path (arg_makefile args));
  let includes := default mf_includes (arg_include args) in
  let cflags := default mf_cflags (arg_cflag args) in
  files ← collect_files (arg_src_dir args) (arg_file args);
  match files with
  | [] =>
      _ ← print ("No .c files found under " +:+ pathlib.Path (arg_src_dir args));
      mret 1%Z
  | _ =>
      ok ← process_all cc files args includes cflags true;
      mret (if ok : bool then 0%Z else 1%Z)
  end.

End Driver.

(** ** What the rewritten block is meant to hold *)

(** The texts of a block kept by [keep]: position [i] contributes when its
    text is in [keep] and occurs at no earlier position. *)
Definition first_kept (keep : gset string) (texts : list string) : list string :=
  omap id (imap (λ i t, if decide (t ∈ keep ∧ t ∉ take i texts)
                        then Some t else None) texts).

(** [rebuild_file] put one line feed between the kept includes and the
    rest of the file. *)
Definition separator_added (lines : list string) (start end_ : nat)
    (include_block : list IncludeLine) (keep_texts : gset string) : Prop :=
  rebuild_file lines start end_ include_block keep_texts
  = take start lines
    ++ (with_newline <$> first_kept keep_texts (text <$> include_block))
    ++ [Py.LF] ++ drop end_ lines.

(** The verdict of the compiler on a translation unit: exit status zero. *)
Definition verdict (cc : toolchain) (compiler : string) (flags : list string)
    (t : string) : bool :=
  match cc compiler flags t with
  | Some r => (returncode (completed r) =? 0)%Z
  | None => false
  end.

(** The texts [determine_needed] collects under the verdict [v]: those of
    the includes whose removal alone makes the unit fail. *)
Definition needed_texts (v : string → bool) (lines : list string)
    (include_block : list IncludeLine) : gset string :=
  list_to_set
    (text <$> filter (λ inc, v (Py.join (delete (idx inc) lines)) = false)
                include_block).

(** The keep set after [j] of the [removed] includes were added again. *)
Definition restored (removed : list IncludeLine) (keep_set : gset string)
    (j : nat) : gset string :=
  list_to_set (text <$> take j removed) ∪ keep_set.

(** The includes [process_file] calls removed. *)
Definition removed_of (v : string → bool) (lines : list string)
    (include_block : list IncludeLine) : list IncludeLine :=
  filter (λ inc, text inc ∉ needed_texts v lines include_block) include_block.

(** The text of the candidate with the needed includes and the first [j]
    removed ones. *)
Definition candidate (v : string → bool) (lines : list string)
    (start end_ : nat) (include_block : list IncludeLine) (j : nat) : string :=
  Py.join (rebuild_file lines start end_ include_block
             (restored (removed_of v lines include_block)
                (needed_texts v lines include_block) j)).

Definition msg_error_baseline (path : string) : string :=
  "[error] " +:+ path +:+ ": failed to compile baseline; skipping".
Definition msg_error_trimmed (path : string) : string :=
  "[error] " +:+ path +:+ ": trimmed includes fail to compile; keeping original block".
Definition msg_noop (path : string) : string :=
  "[noop] " +:+ path +:+ ": no changes needed".
Definition msg_fix (path : string) (keep_set : gset string)
    (include_block : list IncludeLine) : string :=
  "[fix] " +:+ path +:+ ": kept " +:+ pretty (size keep_set) +:+ ", removed "
  +:+ pretty (Z.of_nat (length include_block) - Z.of_nat (size keep_set))%Z.

(** How a run of [process_file] in rewrite mode ends once the baseline
    compiled: [k] is the number of removed includes added again. *)
Inductive fix_outcome (v : string → bool) (verbose : bool) (path : string)
    (lines : list string) (start end_ : nat) (block : list IncludeLine)
    (w : world) : bool → world → Prop :=
  | fix_failed w' :
      (∀ j, j ≤ length (removed_of v lines block) →
            v (candidate v lines start end_ block j) = false) →
      invoked w' = invoked w ++ Py.join lines
        :: ((λ inc, Py.join (delete (idx inc) lines)) <$> block)
        ++ (candidate v lines start end_ block
              <$> seq 0 (S (length (removed_of v lines block)))) →
      disk w' = disk w → written w' = written w → tmpdir w' = tmpdir w →
      last (console_out w') = Some (msg_error_trimmed path) →
      fix_outcome v verbose path lines start end_ block w false w'
  | fix_kept k w' :
      let keep := restored (removed_of v lines block)
                    (needed_texts v lines block) k in
      let new_lines := rebuild_file lines start end_ block keep in
      k ≤ length (removed_of v lines block) →
      (∀ j, j < k → v (candidate v lines start end_ block j) = false) →
      v (candidate v lines start end_ block k) = true →
      invoked w' = invoked w ++ Py.join lines
        :: ((λ inc, Py.join (delete (idx inc) lines)) <$> block)
        ++ (candidate v lines start end_ block <$> seq 0 (S k)) →
      tmpdir w' = tmpdir w →
      (if bool_decide (new_lines ≠ lines) then
         disk w' = <[path := Py.join new_lines]> (disk w)
         ∧ written w' = written w ++ [(path, Py.join new_lines)]
         ∧ last (console_out w') = Some (msg_fix path keep block)
       else
         disk w' = disk w ∧ written w' = written w
         ∧ (if verbose then last (console_out w') = Some (msg_noop path)
            else console_out w' = console_out w)) →
      fix_outcome v verbose path lines start end_ block w true w'.

Definition msg_skip (path : string) : string :=
  "[skip] " +:+ path +:+ ": no include block found".

(** The compiler acts as an oracle under these flags: whatever the unit,
    it can be started, it ends with an exit status and it leaves the object
    file it was given in place. *)
Definition starts (cc : toolchain) (compiler : string) (flags : list string)
    : Prop :=
  ∀ t, ∃ p, cc compiler flags t = Some (mkRun p true).

(** [w'] is [w] after the units [ts] went through the compiler in that
    order: same source tree, nothing written to it, same temporary
    directory, console output only added, and none added unless [verbose]. *)
Record run_of (verbose : bool) (w w' : world) (ts : list string) : Prop := {
  run_disk : disk w' = disk w;
  run_tmp : tmpdir w' = tmpdir w;
  run_invoked : invoked w' = invoked w ++ ts;
  run_written : written w' = written w;
  run_special : special w' = special w;
  run_out : console_out w `prefix_of` console_out w';
  run_quiet : verbose = false →
              console_out w' = console_out w ∧ console_err w' = console_err w
}.

(** The raw texts the loop keeps, as a list. *)
Fixpoint kept_texts (include_block : list IncludeLine)
    (keep_texts seen : gset string) : list string :=
  match include_block with
  | [] => []
  | inc :: rest =>
      if bool_decide (text inc ∈ keep_texts)
         && negb (bool_decide (text inc ∈ seen))
      then text inc :: kept_texts rest keep_texts ({[ text inc ]} ∪ seen)
      else kept_texts rest keep_texts seen
  end.

Fixpoint has_cr (s : string) : bool :=
  match s with
  | EmptyString => false
  | String c r => Ascii.eqb c CR || has_cr r
  end.

(** The separator [rebuild_file] puts after the kept includes. *)
Definition separator (lines : list string) (end_ : nat) (kept : list string)
    : list string :=
  if negb (bool_decide (kept = [])) && needs_separator lines end_
  then [Py.LF] else [].

(** The claim that a separator goes in exactly when an include is kept and
    a non-blank line follows the block. *)
Definition separator_claimed (lines : list string) (end_ : nat)
    (include_block : list IncludeLine) (keep_texts : gset string) : Prop :=
  first_kept keep_texts (text <$> include_block) ≠ []
  ∧ ∃ l, lines !! end_ = Some l ∧ blank l = false.

Definition empty_world : world := mkWorld ∅ ∅ [] [] [] [] ∅.

(** One source file [path] holding [t]. *)
Definition one_file (path t : string) : world :=
  mkWorld {[ path := t ]} ∅ [] [] [] [] ∅.

(** No such executable: every invocation fails to start. *)
Definition cc_missing : toolchain := λ _ _ _, None.

(** A compiler that accepts every unit, and one that rejects every unit. *)
Definition cc_accept : toolchain := λ _ _ _,
  Some (mkRun (mkProc 0 "" "") true).
Definition cc_reject : toolchain := λ _ _ _,
  Some (mkRun (mkProc 1 "" "error") true).


Definition sample_args (fix_ verbose : bool) : Args :=
  mkArgs "src" "cc" "Makefile" None None None fix_ verbose.

Definition inc_a : string := "#include <a.h>" +:+ Py.LF.
Definition inc_b : string := "#include <b.h>" +:+ Py.LF.
Definition code_x : string := "int x;" +:+ Py.LF.

(** [b.h] needs [a.h] before it, and [a.h] can be included twice: a unit
    that begins with the include of [b.h] is rejected. *)
Definition cc_order : toolchain := λ _ _ t,
  Some (mkRun (mkProc (if Py.startswith t "#include <b.h>" then 1 else 0) "" "")
          true).

(** The claim that each include line is called needed exactly when the
    file without that line fails to compile. *)
Definition classified_per_line (v : string → bool) (lines : list string)
    (include_block : list IncludeLine) (needed : gset string) : Prop :=
  ∀ inc, inc ∈ include_block →
    (text inc ∈ needed ↔ v (Py.join (delete (idx inc) lines)) = false).

(** [a.h] and [b.h] each declare what the code uses: either include
    alone is enough, and without both the unit is rejected. *)
Definition cc_either : toolchain := λ _ _ t,
  Some (mkRun (mkProc (if Py.startswith t "#include" then 0 else 1) "" "")
          true).

(** Every file of the list went through [process_file], one after the
    other, each to an answer. *)
Inductive processed (cc : toolchain) (args : Args) (includes cflags : list string)
    : list string → world → list bool → world → Prop :=
  | processed_nil w : processed cc args includes cflags [] w [] w
  | processed_cons path files w r w1 rs w2 :
      process_file cc path args includes cflags w = (Ok r, w1) →
      processed cc args includes cflags files w1 rs w2 →
      processed cc args includes cflags (path :: files) w (r :: rs) w2.


Definition two_files : world :=
  mkWorld {[ "a.c" := inc_a +:+ code_x; "b.c" := code_x ]} ∅ [] [] [] [] ∅.


(** The flags file of the scenario. *)
Definition scenario_makefile : string :=
  "INCLUDES = -Iinc $(EXTRA)" +:+ Py.LF +:+ "EXTRA = -Ivendor" +:+ Py.LF.

(** The file at [path] can be read and holds [t]. *)
Definition readable (w : world) (path t : string) : Prop :=
  disk w !! path = Some t
  ∨ disk w !! path = None ∧ special w !! path = Some (ReadOnly t).

(** The claim that the include flags of the scenario are those of [inc]
    and [vendor] under the directory of the flags file, whatever
    [Path.resolve] does. *)
Definition flags_claimed (resolve : string → string) (makefile : string)
    (w : world) : Prop :=
  let D := resolve (pathlib.parent makefile) in
  ∃ cflags,
    makefile_flags resolve makefile w
    = (Ok (["-I" +:+ D +:+ "/inc"; "-I" +:+ D +:+ "/vendor"], cflags), w).

(** [Path.resolve] where [/proj/inc] is a symbolic link to [/srv/headers]. *)
Definition resolve_link (p : string) : string :=
  if String.eqb p "/proj/inc" then "/srv/headers" else p.

Fixpoint has_break (s : string) : bool :=
  match s with
  | EmptyString => false
  | String c r => is_linebreak c || has_break r
  end.

(** A line that ends with a line feed and holds no other line boundary. *)
Definition lf_line (l : string) : Prop :=
  ∃ body, l = body +:+ Py.LF ∧ has_break body = false.

(** A line with its end: no line boundary before the last character, which
    is one and not a carriage return. *)
Definition terminated (l : string) : Prop :=
  ∃ body c, l = body +:+ String c EmptyString ∧ has_break body = false
            ∧ is_linebreak c = true ∧ c ≠ CR.

(** The lines of a text without carriage returns: every line is
    terminated, but the last one may be a non-empty text without any line
    boundary. *)
Inductive file_lines : list string → Prop :=
  | file_lines_nil : file_lines []
  | file_lines_open l :
      l ≠ EmptyString → has_break l = false → file_lines [l]
  | file_lines_cons l ls :
      terminated l → file_lines ls → file_lines (l :: ls).

(** The code needs the line that includes [b.h], wherever it stands, and
    nothing else. *)
Definition cc_needs_b_line : toolchain := λ _ _ t,
  Some (mkRun (mkProc (if bool_decide (inc_b ∈ splitlines true t) then 0 else 1)
                 "" "") true).

(** The records [find_include_block] makes for include lines that follow
    one another from line [e] on. *)
Definition records (e : nat) (ts : list string) : list IncludeLine :=
  imap (λ i t, mkIncludeLine (e + i) t (default EmptyString (INCLUDE_RE_match t))) ts.

(** The claim that a second run in rewrite mode writes nothing. *)
Definition second_run_writes_nothing (cc : toolchain) (path : string)
    (args : Args) (includes cflags : list string) (w : world) : Prop :=
  ∀ w1 r2 w2,
    process_file cc path args includes cflags w = (Ok true, w1) →
    process_file cc path args includes cflags w1 = (r2, w2) →
    written w2 = written w1.

(** The code needs [a.h] and nothing else. *)
Definition cc_needs_a : toolchain := λ _ _ t,
  Some (mkRun (mkProc (if Py.startswith t "#include <a.h>" then 0 else 1) "" "")
          true).

(** ** Shapes used to state what the functions compute *)

(** Every character of [s] passes [p]. *)
Fixpoint string_forallb (p : ascii → bool) (s : string) : bool :=
  match s with
  | EmptyString => true
  | String c r => p c && string_forallb p r
  end.

(** The records of the include lines among [ls], which are the lines from
    index [e] on: one per matching line, in order. *)
Definition include_records (e : nat) (ls : list string) : list IncludeLine :=
  omap id (imap (λ i l, mkIncludeLine (e + i) l <$> INCLUDE_RE_match l) ls).

(** A line as [INCLUDE_RE] reads it: white space, [#], white space,
    [include], white space, an opening delimiter, the target, a closing
    delimiter, anything. *)
Definition include_shape (line tg : string) : Prop :=
  ∃ ws1 ws2 ws3 q c post,
    line = ws1 +:+ "#" +:+ ws2 +:+ "include" +:+ ws3
           +:+ String q (tg +:+ String c post)
    ∧ string_forallb Py.is_space ws1 = true
    ∧ string_forallb Py.is_space ws2 = true
    ∧ string_forallb Py.is_space ws3 = true
    ∧ is_open_delim q = true ∧ is_close_delim c = true
    ∧ tg ≠ EmptyString
    ∧ string_forallb (λ a, negb (is_close_delim a)) tg = true.

Definition msg_check (path : string) (needed removable : nat) : string :=
  "[check] " +:+ path +:+ ": needed " +:+ pretty needed
  +:+ ", removable " +:+ pretty removable.
Definition msg_removable (inc : IncludeLine) : string :=
  "    removable: " +:+ Py.strip (text inc).
Definition msg_no_files (src_dir : string) : string :=
  "No .c files found under " +:+ pathlib.Path src_dir.

(** [w] after [print] of the lines [out]. *)
Definition printed (w : world) (out : list string) : world :=
  mkWorld (disk w) (tmpdir w) (console_out w ++ out) (console_err w)
    (invoked w) (written w) (special w).

(** The characters of [s] that pass [p], in order. *)
Fixpoint string_filter (p : ascii → bool) (s : string) : string :=
  match s with
  | EmptyString => EmptyString
  | String c r => if p c then String c (string_filter p r) else string_filter p r
  end.

(** Neither a quote nor a backslash. *)
Definition shlex_plain (c : ascii) : bool :=
  negb (shlex_quote c) && negb (Ascii.eqb c BACKSLASH).

(** Neither a single quote nor a backslash. *)
Definition no_single_quote (c : ascii) : bool :=
  negb (Ascii.eqb c "'") && negb (Ascii.eqb c BACKSLASH).

(** Whether [s] holds an odd number of double quotes. *)
Fixpoint odd_quotes (s : string) : bool :=
  match s with
  | EmptyString => false
  | String c r => xorb (Ascii.eqb c DQ) (odd_quotes r)
  end.




(** * Properties *)


(** ** Strings *)

Local Arguments String.append !_ _ / : simpl nomatch.

Lemma append_nil_r s : s +:+ EmptyString = s.
Proof. induction s as [|c s IH]; simpl; [done | by rewrite IH]. Qed.

Lemma append_assoc (a b c : string) : (a +:+ b) +:+ c = a +:+ (b +:+ c).
Proof. induction a as [|x a IH]; simpl; [done | by rewrite IH]. Qed.

Lemma endswith_append s suf : Py.endswith (s +:+ suf) suf = true.
Proof.
  induction s as [|c s IH]; simpl.
  - destruct suf; simpl; [done|]. by rewrite Ascii.eqb_refl, String.eqb_refl.
  - case_match; [done | apply IH].
Qed.

Lemma with_newline_ends t : Py.endswith (with_newline t) Py.LF = true.
Proof.
  unfold with_newline. destruct (Py.endswith t Py.LF) eqn:E; [done|].
  apply endswith_append.
Qed.

Lemma with_newline_id t : Py.endswith t Py.LF = true → with_newline t = t.
Proof. unfold with_newline. by intros ->. Qed.

(** ** The loop of [rebuild_file] *)

Lemma rebuild_block_kept block keep seen acc :
  rebuild_block block keep seen acc
  = acc ++ (with_newline <$> kept_texts block keep seen).
Proof.
  revert seen acc. induction block as [|inc rest IH]; intros seen acc; simpl.
  - by rewrite app_nil_r.
  - destruct (_ && _); [|apply IH].
    rewrite IH. by rewrite <- app_assoc.
Qed.

Lemma kept_texts_elem block keep seen t :
  t ∈ kept_texts block keep seen
  ↔ t ∈ keep ∧ (t ∉ seen) ∧ t ∈ (text <$> block).
Proof.
  revert seen. induction block as [|inc rest IH]; intros seen; simpl.
  - set_solver.
  - destruct (bool_decide (text inc ∈ keep)) eqn:Hk;
      destruct (bool_decide (text inc ∈ seen)) eqn:Hs; simpl;
      [apply bool_decide_eq_true in Hk | apply bool_decide_eq_true in Hk
      | apply bool_decide_eq_false in Hk | apply bool_decide_eq_false in Hk];
      [apply bool_decide_eq_true in Hs | apply bool_decide_eq_false in Hs
      | apply bool_decide_eq_true in Hs | apply bool_decide_eq_false in Hs];
      rewrite ?elem_of_cons, IH, ?elem_of_cons;
      destruct (decide (t = text inc)) as [->|]; set_solver.
Qed.

Lemma kept_texts_NoDup block keep seen : NoDup (kept_texts block keep seen).
Proof.
  revert seen. induction block as [|inc rest IH]; intros seen; simpl.
  - constructor.
  - destruct (_ && _); [|apply IH].
    constructor; [|apply IH]. rewrite kept_texts_elem. set_solver.
Qed.

Lemma kept_texts_sublist block keep seen :
  kept_texts block keep seen `sublist_of` (text <$> block).
Proof.
  revert seen. induction block as [|inc rest IH]; intros seen; simpl.
  - constructor.
  - destruct (_ && _); [apply sublist_skip | apply sublist_cons]; apply IH.
Qed.

Lemma omap_imap_ext {A B} (f g : nat → A → option B) (l : list A) :
  (∀ i t, f i t = g i t) → omap id (imap f l) = omap id (imap g l).
Proof. intros E. f_equal. apply imap_ext. intros i t _. apply E. Qed.

Lemma kept_texts_first_kept_gen block keep seen :
  kept_texts block keep seen
  = omap id (imap (λ i t, if decide (t ∈ keep ∧ (t ∉ seen)
                                       ∧ t ∉ take i (text <$> block))
                          then Some t else None) (text <$> block)).
Proof.
  revert seen. induction block as [|inc rest IH]; intros seen; [done|].
  simpl. rewrite !IH. clear IH.
  destruct (bool_decide (text inc ∈ keep)) eqn:Hk;
    destruct (bool_decide (text inc ∈ seen)) eqn:Hs; simpl;
    [apply bool_decide_eq_true in Hk | apply bool_decide_eq_true in Hk
    | apply bool_decide_eq_false in Hk | apply bool_decide_eq_false in Hk];
    [apply bool_decide_eq_true in Hs | apply bool_decide_eq_false in Hs
    | apply bool_decide_eq_true in Hs | apply bool_decide_eq_false in Hs];
    (destruct (decide (text inc ∈ keep ∧ (text inc ∉ seen) ∧ text inc ∉ []))
       as [Hd|Hd]; [try (exfalso; set_solver) | try (exfalso; set_solver)]);
    simpl; first [apply omap_imap_ext | f_equal; apply omap_imap_ext];
    intros i t; simpl; repeat case_decide; try done; exfalso; set_solver.
Qed.

Lemma kept_texts_first_kept block keep :
  kept_texts block keep ∅ = first_kept keep (text <$> block).
Proof.
  rewrite kept_texts_first_kept_gen. unfold first_kept. f_equal.
  apply imap_ext. intros i t _. simpl.
  repeat case_decide; try done; exfalso; set_solver.
Qed.

(** ** The monad *)

Lemma run_of_refl verbose w : run_of verbose w w [].
Proof. split; rewrite ?app_nil_r; done. Qed.

Lemma run_of_trans verbose w1 w2 w3 ts ts' :
  run_of verbose w1 w2 ts → run_of verbose w2 w3 ts' →
  run_of verbose w1 w3 (ts ++ ts').
Proof.
  intros [D1 T1 I1 W1 S1 O1 Q1] [D2 T2 I2 W2 S2 O2 Q2]. split.
  - congruence.
  - congruence.
  - rewrite I2, I1. by rewrite app_assoc.
  - congruence.
  - congruence.
  - by etrans.
  - intros Hv. destruct (Q1 Hv), (Q2 Hv). split; congruence.
Qed.

Lemma bind_run {A B} (m : M A) (f : A → M B) w :
  (m ≫= f) w = match m w with
               | (Ok a, w') => f a w'
               | (Raise e, w') => (Raise e, w')
               end.
Proof. done. Qed.

Section PipelineFacts.

Variable cc : toolchain.

Lemma fresh_tmp (t : gmap nat string) : t !! fresh (dom t) = None.
Proof. apply not_elem_of_dom, is_fresh. Qed.

Lemma unlink_run n c w :
  tmpdir w !! n = Some c →
  unlink n w = (Ok tt, set_tmpdir (delete n (tmpdir w)) w).
Proof. intros H. unfold unlink. by rewrite H. Qed.

Lemma compile_check_runs source compiler includes cflags verbose w t p :
  tmpdir w !! source = Some t →
  cc compiler (cflags ++ includes) t = Some (mkRun p true) →
  ∃ w', compile_check cc source compiler includes cflags verbose w
        = (Ok (returncode p =? 0)%Z, w')
        ∧ run_of verbose w w' [t].
Proof.
  intros Hs Hp.
  assert (Hn := fresh_tmp (tmpdir w)).
  assert (Hne : fresh (dom (tmpdir w)) ≠ source) by congruence.
  unfold compile_check. rewrite bind_run. unfold NamedTemporaryFile at 1.
  rewrite bind_run. unfold subprocess_run.
  destruct w as [d tm co ce inv wr sp].
  cbn [tmpdir set_tmpdir disk console_out console_err invoked written special] in *.
  rewrite lookup_insert_ne by done. rewrite Hs.
  change (default EmptyString (Some t)) with t. rewrite Hp.
  cbn [completed object_left].
  set (n := fresh (dom tm)) in *.
  destruct verbose; cbn [negb];
    unfold when, print, print_err, unlink, mbind, M_bind, mret, M_ret;
    cbn [Py.truthy proc_stdout proc_stderr returncode
         tmpdir set_tmpdir disk console_out console_err invoked written special];
    rewrite lookup_insert_eq;
    cbn [tmpdir set_tmpdir disk console_out console_err invoked written special];
    rewrite delete_insert_eq, (delete_id tm n) by done;
    (eexists; split; [reflexivity|]);
    split;
    cbn [tmpdir set_tmpdir disk console_out console_err invoked written special];
    try done.
  rewrite <- !app_assoc. by apply prefix_app_r.
Qed.

Lemma compile_check_raises source compiler includes cflags verbose w t :
  tmpdir w !! source = Some t →
  cc compiler (cflags ++ includes) t = None →
  compile_check cc source compiler includes cflags verbose w
  = (Raise OSError,
     set_tmpdir (<[fresh (dom (tmpdir w)) := EmptyString]> (tmpdir w)) w).
Proof.
  intros Hs Hp.
  assert (Hn := fresh_tmp (tmpdir w)).
  assert (Hne : fresh (dom (tmpdir w)) ≠ source) by congruence.
  unfold compile_check. rewrite bind_run. unfold NamedTemporaryFile at 1.
  rewrite bind_run. unfold subprocess_run.
  cbn [tmpdir set_tmpdir].
  rewrite lookup_insert_ne by done. rewrite Hs.
  change (default EmptyString (Some t)) with t. by rewrite Hp.
Qed.

Lemma compile_lines_runs lines compiler includes cflags verbose w p :
  cc compiler (cflags ++ includes) (Py.join lines) = Some (mkRun p true) →
  ∃ w', compile_lines cc lines compiler includes cflags verbose w
        = (Ok (returncode p =? 0)%Z, w')
        ∧ run_of verbose w w' [Py.join lines].
Proof.
  intros Hp. unfold compile_lines, write_temp.
  rewrite bind_run. unfold NamedTemporaryFile at 1.
  set (n := fresh (dom (tmpdir w))).
  assert (Hn : tmpdir w !! n = None) by apply fresh_tmp.
  set (w1 := set_tmpdir _ w).
  destruct (compile_check_runs n compiler includes cflags verbose w1
              (Py.join lines) p) as (w2 & E & R); [|done|].
  { unfold w1. cbn. apply lookup_insert_eq. }
  destruct R as [D T I W S O Q].
  rewrite bind_run, E, bind_run.
  erewrite unlink_run by (rewrite T; unfold w1; cbn; apply lookup_insert_eq).
  cbn [mret M_ret].
  eexists; split; [reflexivity|].
  split;
    cbn [tmpdir set_tmpdir disk console_out console_err invoked written special].
  - by rewrite D.
  - rewrite T. unfold w1. cbn. rewrite delete_insert_eq. by apply delete_id.
  - by rewrite I.
  - by rewrite W.
  - by rewrite S.
  - done.
  - done.
Qed.




Lemma check_then {B} lines compiler includes cflags verbose (k : bool → M B) w :
  (tmp ← write_temp lines;
   ok ← compile_check cc tmp compiler includes cflags verbose;
   _ ← unlink tmp; k ok) w
  = (ok ← compile_lines cc lines compiler includes cflags verbose; k ok) w.
Proof.
  unfold compile_lines. rewrite !bind_run.
  destruct (write_temp lines w) as [[n|e] w1]; [|done].
  rewrite !bind_run.
  destruct (compile_check _ _ _ _ _ _ _) as [[b|e] w2]; [|done].
  rewrite !bind_run.
  destruct (unlink n w2) as [[[]|e] w3]; done.
Qed.

Lemma verdict_Some compiler flags t r :
  cc compiler flags t = Some r →
  verdict cc compiler flags t = (returncode (completed r) =? 0)%Z.
Proof. unfold verdict. by intros ->. Qed.

Lemma compile_lines_verdict lines compiler includes cflags verbose w :
  starts cc compiler (cflags ++ includes) →
  ∃ w', compile_lines cc lines compiler includes cflags verbose w
        = (Ok (verdict cc compiler (cflags ++ includes) (Py.join lines)), w')
        ∧ run_of verbose w w' [Py.join lines].
Proof.
  intros Hs. destruct (Hs (Py.join lines)) as [p Hp].
  rewrite (verdict_Some _ _ _ _ Hp). by apply compile_lines_runs.
Qed.

Lemma classify_runs block lines compiler includes cflags verbose acc w :
  starts cc compiler (cflags ++ includes) →
  ∃ w', classify cc block lines compiler includes cflags verbose acc w
        = (Ok (needed_texts (verdict cc compiler (cflags ++ includes)) lines block ∪ acc), w')
        ∧ run_of verbose w w' ((λ inc, Py.join (delete (idx inc) lines)) <$> block).
Proof.
  intros Hs. revert acc w.
  induction block as [|inc rest IH]; intros acc w.
  - exists w. split; [|apply run_of_refl].
    unfold needed_texts. cbn. by rewrite (left_id_L ∅ (∪)).
  - cbn [classify]. rewrite check_then, bind_run.
    destruct (compile_lines_verdict (delete (idx inc) lines) compiler includes
                cflags verbose w Hs) as (w1 & E1 & R1).
    rewrite E1.
    destruct (IH (if verdict cc compiler (cflags ++ includes)
                       (Py.join (delete (idx inc) lines))
                  then acc else {[text inc]} ∪ acc) w1) as (w2 & E2 & R2).
    rewrite E2. exists w2. split.
    + f_equal. f_equal. unfold needed_texts. rewrite filter_cons.
      destruct (verdict _ _ _ _) eqn:V; case_decide; try done; simpl; set_solver.
    + rewrite fmap_cons. apply (run_of_trans _ _ _ _ [_] _ R1 R2).
Qed.

Lemma determine_needed_runs file_path block lines compiler includes cflags verbose w :
  starts cc compiler (cflags ++ includes) →
  let v := verdict cc compiler (cflags ++ includes) in
  ∃ w', determine_needed cc file_path block lines compiler includes cflags verbose w
        = (Ok (if v (Py.join lines) then (needed_texts v lines block, true)
               else (∅, false)), w')
        ∧ run_of verbose w w'
            (Py.join lines ::
             if v (Py.join lines)
             then (λ inc, Py.join (delete (idx inc) lines)) <$> block else []).
Proof.
  intros Hs v. unfold determine_needed. rewrite check_then, bind_run.
  destruct (compile_lines_verdict lines compiler includes cflags verbose w Hs)
    as (w1 & E1 & R1).
  rewrite E1. fold v. destruct (v (Py.join lines)); cbn [negb].
  - rewrite bind_run.
    destruct (classify_runs block lines compiler includes cflags verbose ∅ w1 Hs)
      as (w2 & E2 & R2).
    rewrite E2. exists w2. split.
    + cbn. by rewrite (right_id_L ∅ (∪)).
    + apply (run_of_trans _ _ _ _ [_] _ R1 R2).
  - exists w1. split; [done|]. done.
Qed.
Lemma restored_cons inc rest keep j :
  restored rest ({[text inc]} ∪ keep) j = restored (inc :: rest) keep (S j).
Proof. unfold restored. cbn. set_solver. Qed.

Lemma restored_0 removed keep : restored removed keep 0 = keep.
Proof. unfold restored. cbn. apply (left_id_L ∅ (∪)). Qed.

Lemma restored_1 inc rest keep :
  restored (inc :: rest) keep 1 = {[text inc]} ∪ keep.
Proof. by rewrite <- restored_cons, restored_0. Qed.

(** The repair loop compiles the candidates of [restored 1], [restored 2],
    ... in turn and stops at the first that compiles. *)
Lemma repair_runs removed keep lines start end_ block compiler includes
    cflags verbose w :
  starts cc compiler (cflags ++ includes) →
  let v := verdict cc compiler (cflags ++ includes) in
  let cand j := Py.join (rebuild_file lines start end_ block
                           (restored removed keep j)) in
  ∃ k w' r,
    repair cc removed keep lines start end_ block compiler includes cflags
      verbose w = (Ok r, w')
    ∧ k ≤ length removed
    ∧ run_of verbose w w' (cand <$> seq 1 k)
    ∧ ((1 ≤ k ∧ (∀ j, 1 ≤ j < k → v (cand j) = false)
        ∧ v (cand k) = true ∧ r = Some (restored removed keep k))
       ∨ (k = length removed ∧ (∀ j, 1 ≤ j ≤ k → v (cand j) = false)
          ∧ r = None)).
Proof.
  intros Hs v. revert keep w.
  induction removed as [|inc rest IH]; intros keep w cand.
  - exists 0, w, None. cbn [repair mret M_ret]. split; [done|].
    split; [done|]. split; [apply run_of_refl|].
    right. split; [done|]. split; [intros; lia|done].
  - cbn [repair]. rewrite bind_run.
    destruct (compile_lines_verdict
                (rebuild_file lines start end_ block ({[text inc]} ∪ keep))
                compiler includes cflags verbose w Hs) as (w1 & E1 & R1).
    rewrite E1. fold v.
    assert (C1 : Py.join (rebuild_file lines start end_ block
                            ({[text inc]} ∪ keep)) = cand 1).
    { unfold cand. by rewrite restored_1. }
    rewrite C1 in *.
    destruct (v (cand 1)) eqn:V1.
    + exists 1, w1, (Some (restored (inc :: rest) keep 1)).
      split. { by rewrite restored_1. }
      split; [cbn; lia|]. split; [done|].
      left. split; [done|]. split; [intros; lia|]. done.
    + destruct (IH ({[text inc]} ∪ keep) w1) as (k & w2 & r & E2 & Hk & R2 & Hc).
      exists (S k), w2, r. split; [done|]. split; [cbn; lia|].
      assert (Hcand : ∀ j, Py.join (rebuild_file lines start end_ block
                  (restored rest ({[text inc]} ∪ keep) j)) = cand (S j)).
      { intros j. unfold cand. by rewrite restored_cons. }
      split.
      { cbn [seq fmap list_fmap]. rewrite <- fmap_S_seq, <- list_fmap_compose.
        erewrite (list_fmap_ext _ (cand ∘ S)) in R2; [|intros; apply Hcand].
        apply (run_of_trans _ _ _ _ [_] _ R1 R2). }
      destruct Hc as [(H1 & Hf & Hv & ->)|(-> & Hf & ->)]; [left|right].
      * split; [lia|]. split.
        { intros j Hj. destruct j as [|[|j]]; [lia|done|].
          rewrite <- Hcand. apply Hf. lia. }
        split; [by rewrite <- Hcand|]. by rewrite restored_cons.
      * split; [done|]. split; [|done].
        intros j Hj. destruct j as [|[|j]]; [lia|done|].
        rewrite <- Hcand. apply Hf. cbn in Hj. lia.
Qed.
Lemma needed_texts_elem v lines block t :
  t ∈ needed_texts v lines block
  ↔ ∃ inc, inc ∈ block ∧ text inc = t
           ∧ v (Py.join (delete (idx inc) lines)) = false.
Proof.
  unfold needed_texts. rewrite elem_of_list_to_set, list_elem_of_fmap.
  split.
  - intros (inc & -> & Hin). apply list_elem_of_filter in Hin as [Hv Hin].
    by exists inc.
  - intros (inc & Hin & <- & Hv). exists inc. split; [done|].
    by apply list_elem_of_filter.
Qed.

Lemma keep_set_needed v lines block :
  list_to_set (text <$> filter (λ inc, text inc ∈ needed_texts v lines block) block)
  = needed_texts v lines block.
Proof.
  apply set_eq. intros t.
  rewrite elem_of_list_to_set, list_elem_of_fmap. split.
  - intros (inc & -> & Hin). by apply list_elem_of_filter in Hin as [Hv Hin].
  - intros Ht. assert (Ht' := Ht).
    apply needed_texts_elem in Ht as (inc & Hin & <- & Hv).
    exists inc. split; [done|]. by apply list_elem_of_filter.
Qed.

Lemma candidate_0 v lines start end_ block :
  candidate v lines start end_ block 0
  = Py.join (rebuild_file lines start end_ block (needed_texts v lines block)).
Proof. unfold candidate. by rewrite restored_0. Qed.

Lemma read_text_run path t w :
  disk w !! path = Some t → read_text path w = (Ok (universal_newlines t), w).
Proof. intros H. unfold read_text. by rewrite H. Qed.


Lemma process_file_fix_cases path args includes cflags w t start end_ block :
  let v := verdict cc (arg_compiler args) (cflags ++ includes) in
  let lines := splitlines true (universal_newlines t) in
  arg_fix args = true →
  starts cc (arg_compiler args) (cflags ++ includes) →
  disk w !! path = Some t →
  find_include_block lines = Some (start, end_, block) →
  v (Py.join lines) = true →
  ∃ r w', process_file cc path args includes cflags w = (Ok r, w')
          ∧ fix_outcome v (arg_verbose args) path lines start end_ block w r w'.
Proof.
  intros v lines Hfix Hs Hd Hb Hv.
  unfold process_file. rewrite bind_run, (read_text_run _ _ _ Hd).
  fold lines. rewrite Hb. rewrite bind_run.
  destruct (determine_needed_runs path block lines (arg_compiler args)
              includes cflags (arg_verbose args) w Hs) as (w1 & E1 & R1).
  rewrite E1. fold v in R1 |- *. rewrite Hv in R1 |- *. cbn [negb].
  rewrite Hfix, keep_set_needed.
  fold (removed_of v lines block).
  rewrite bind_run.
  destruct (compile_lines_verdict
              (rebuild_file lines start end_ block (needed_texts v lines block))
              (arg_compiler args) includes cflags (arg_verbose args) w1 Hs)
    as (w2 & E2 & R2).
  rewrite E2. fold v. rewrite <- candidate_0 in R2 |- *.
  pose proof (run_of_trans _ _ _ _ _ _ R1 R2) as R12.
  match goal with |- context [_ ≫= ?f] => set (K := f) end.
  set (singles := (λ inc : IncludeLine, Py.join (delete (idx inc) lines)) <$> block) in *.
  assert (HSome : ∀ k w3,
    k ≤ length (removed_of v lines block) →
    (∀ j, j < k → v (candidate v lines start end_ block j) = false) →
    v (candidate v lines start end_ block k) = true →
    run_of (arg_verbose args) w w3
      (Py.join lines :: singles
         ++ (candidate v lines start end_ block <$> seq 0 (S k))) →
    ∃ w', K (Some (restored (removed_of v lines block)
                     (needed_texts v lines block) k)) w3 = (Ok true, w')
          ∧ fix_outcome v (arg_verbose args) path lines start end_ block
              w true w').
  { intros k w3 Hk Hf Hc [D T I W S O Q]. unfold K.
    assert (Hd3 : disk w3 !! path = Some t) by (by rewrite D).
    unfold write_text, wrote, print, when, mbind, M_bind, mret, M_ret.
    destruct (bool_decide (rebuild_file lines start end_ block
                (restored (removed_of v lines block)
                   (needed_texts v lines block) k) ≠ lines)) eqn:Hneq;
      [|destruct (arg_verbose args) eqn:Hverb];
      cbv beta iota zeta; rewrite ?Hd3;
      (eexists; split; [reflexivity|]);
      apply (fix_kept _ _ _ _ _ _ _ _ k); try done;
      cbn [disk tmpdir console_out console_err invoked written special];
      rewrite Hneq.
    - rewrite D, W. split; [done|]. split; [done|]. apply last_snoc.
    - split; [done|]. split; [done|]. apply last_snoc.
    - split; [done|]. split; [done|]. by apply Q. }
  assert (HNone : ∀ w3,
    (∀ j, j ≤ length (removed_of v lines block) →
          v (candidate v lines start end_ block j) = false) →
    run_of (arg_verbose args) w w3
      (Py.join lines :: singles
         ++ (candidate v lines start end_ block
               <$> seq 0 (S (length (removed_of v lines block))))) →
    ∃ w', K None w3 = (Ok false, w')
          ∧ fix_outcome v (arg_verbose args) path lines start end_ block
              w false w').
  { intros w3 Hf [D T I W S O Q]. unfold K.
    unfold print, mbind, M_bind, mret, M_ret.
    eexists; split; [reflexivity|].
    apply fix_failed; try done. apply last_snoc. }
  rewrite bind_run.
  destruct (v (candidate v lines start end_ block 0)) eqn:V0.
  - cbn [mret M_ret].
    rewrite <- (restored_0 (removed_of v lines block) (needed_texts v lines block)).
    exists true. apply (HSome 0); [lia|intros; lia|done|].
    exact R12.
  - destruct (repair_runs (removed_of v lines block)
                (needed_texts v lines block) lines start end_ block
                (arg_compiler args) includes cflags (arg_verbose args) w2 Hs)
      as (k & w3 & r & E3 & Hk & R3 & Hc).
    rewrite E3. fold v in Hc.
    pose proof (run_of_trans _ _ _ _ _ _ R12 R3) as R123.
    cbn [app] in R123. rewrite <- app_assoc in R123.
    change (λ j, Py.join (rebuild_file lines start end_ block
              (restored (removed_of v lines block)
                 (needed_texts v lines block) j)))
      with (candidate v lines start end_ block) in *.
    change ([candidate v lines start end_ block 0]
            ++ (candidate v lines start end_ block <$> seq 1 k))
      with (candidate v lines start end_ block <$> seq 0 (S k)) in R123.
    destruct Hc as [(H1 & Hf & Hvk & ->)|(-> & Hf & ->)].
    + exists true. apply (HSome k); try done.
      intros j Hj. destruct j as [|j]; [done|]. apply Hf. lia.
    + exists false. apply HNone; [|done].
      intros j Hj. destruct j as [|j]; [done|]. apply Hf. lia.
Qed.

Lemma process_file_unread path args includes cflags w e w' :
  read_text path w = (Raise e, w') →
  process_file cc path args includes cflags w = (Raise e, w').
Proof. intros H. unfold process_file. rewrite bind_run. by rewrite H. Qed.

Lemma process_file_no_block path args includes cflags w t :
  disk w !! path = Some t →
  find_include_block (splitlines true (universal_newlines t)) = None →
  ∃ w', process_file cc path args includes cflags w = (Ok true, w')
        ∧ disk w' = disk w ∧ written w' = written w
        ∧ tmpdir w' = tmpdir w ∧ invoked w' = invoked w
        ∧ console_out w'
          = console_out w ++ (if arg_verbose args then [msg_skip path] else []).
Proof.
  intros Hd Hb. unfold process_file.
  rewrite bind_run, (read_text_run _ _ _ Hd), Hb.
  unfold when, print, mbind, M_bind, mret, M_ret.
  destruct (arg_verbose args); (eexists; split; [reflexivity|]);
    cbn [disk tmpdir console_out console_err invoked written];
    rewrite ?app_nil_r; done.
Qed.

Lemma process_file_baseline_fails path args includes cflags w t start end_ block :
  let lines := splitlines true (universal_newlines t) in
  starts cc (arg_compiler args) (cflags ++ includes) →
  disk w !! path = Some t →
  find_include_block lines = Some (start, end_, block) →
  verdict cc (arg_compiler args) (cflags ++ includes) (Py.join lines) = false →
  ∃ w', process_file cc path args includes cflags w = (Ok false, w')
        ∧ disk w' = disk w ∧ written w' = written w
        ∧ tmpdir w' = tmpdir w ∧ invoked w' = invoked w ++ [Py.join lines]
        ∧ last (console_out w') = Some (msg_error_baseline path).
Proof.
  intros lines Hs Hd Hb Hv. unfold process_file.
  rewrite bind_run, (read_text_run _ _ _ Hd). fold lines. rewrite Hb, bind_run.
  destruct (determine_needed_runs path block lines (arg_compiler args)
              includes cflags (arg_verbose args) w Hs) as (w1 & E1 & R1).
  rewrite E1. rewrite Hv in R1 |- *. cbn [negb].
  destruct R1 as [D T I W S O Q].
  unfold print, mbind, M_bind, mret, M_ret.
  eexists; split; [reflexivity|].
  cbn [disk tmpdir console_out console_err invoked written].
  repeat split; try done. apply last_snoc.
Qed.



End PipelineFacts.

(** ** The include block locator *)

Lemma find_start_Some lines i s :
  find_start lines i = Some s →
  ∃ n, s = i + n
       ∧ Forall (λ l, INCLUDE_RE_match l = None) (take n lines)
       ∧ ∃ l, lines !! n = Some l ∧ is_Some (INCLUDE_RE_match l).
Proof.
  revert i. induction lines as [|l rest IH]; intros i H; [done|].
  cbn [find_start] in H. destruct (INCLUDE_RE_match l) as [tg|] eqn:E.
  - injection H as <-. exists 0. split; [lia|]. split; [constructor|].
    exists l. split; [done|]. rewrite E. by eexists.
  - apply IH in H as (n & -> & Hf & l' & Hl & Hm).
    exists (S n). split; [lia|]. split; [by constructor|]. by exists l'.
Qed.

Lemma find_start_None lines i :
  find_start lines i = None → Forall (λ l, INCLUDE_RE_match l = None) lines.
Proof.
  revert i. induction lines as [|l rest IH]; intros i H; [constructor|].
  cbn [find_start] in H. destruct (INCLUDE_RE_match l) eqn:E; [done|].
  constructor; [done|]. by eapply IH.
Qed.

Lemma scan_block_inv rest e acc e' incs :
  scan_block rest e acc = (e', incs) →
  ∃ n new,
    e' = e + n ∧ incs = acc ++ new ∧ n ≤ length rest
    ∧ (∀ l, rest !! n = Some l → INCLUDE_RE_match l = None ∧ blank l = false)
    ∧ (∀ inc, inc ∈ new →
         ∃ i, i < n ∧ idx inc = e + i ∧ rest !! i = Some (text inc)
              ∧ INCLUDE_RE_match (text inc) = Some (target inc)).
Proof.
  revert e acc. induction rest as [|l rest IH]; intros e acc H.
  - injection H as <- <-. exists 0, []. rewrite app_nil_r.
    repeat split; try done; try lia. intros inc Hin. by apply elem_of_nil in Hin.
  - cbn [scan_block] in H. destruct (INCLUDE_RE_match l) as [tg|] eqn:E.
    + apply IH in H as (n & new & -> & -> & Hn & Hstop & Hin).
      exists (S n), (mkIncludeLine e l tg :: new).
      split; [lia|]. split; [by rewrite <- app_assoc|]. split; [cbn; lia|].
      split; [done|].
      intros inc [->|Hi]%elem_of_cons.
      * exists 0. cbn. repeat split; try done; lia.
      * destruct (Hin inc Hi) as (i & Hi1 & Hi2 & Hi3 & Hi4).
        exists (S i). repeat split; try done; lia.
    + destruct (blank l) eqn:B.
      * apply IH in H as (n & new & -> & -> & Hn & Hstop & Hin).
        exists (S n), new. split; [lia|]. split; [done|]. split; [cbn; lia|].
        split; [done|].
        intros inc Hi. destruct (Hin inc Hi) as (i & Hi1 & Hi2 & Hi3 & Hi4).
        exists (S i). repeat split; try done; lia.
      * injection H as <- <-. exists 0, []. rewrite app_nil_r.
        split; [lia|]. split; [done|]. split; [lia|]. split.
        -- intros l' [= <-]. done.
        -- intros inc Hin. by apply elem_of_nil in Hin.
Qed.

(** What [find_include_block] returns: no include before [start], every
    record of the block points at its own line inside the block, and the
    line at [end], when there is one, is neither an include nor blank. *)
Lemma find_include_block_inv lines start end_ block :
  find_include_block lines = Some (start, end_, block) →
  Forall (λ l, INCLUDE_RE_match l = None) (take start lines)
  ∧ start < end_ ≤ length lines
  ∧ (∀ l, lines !! end_ = Some l → INCLUDE_RE_match l = None ∧ blank l = false)
  ∧ (∀ inc, inc ∈ block →
       start ≤ idx inc < end_ ∧ lines !! idx inc = Some (text inc)
       ∧ INCLUDE_RE_match (text inc) = Some (target inc)).
Proof.
  unfold find_include_block. intros H.
  destruct (find_start lines 0) as [s|] eqn:Hs; [|done].
  destruct (scan_block (drop s lines) s []) as [e incs] eqn:Hsc.
  injection H as -> -> ->.
  apply find_start_Some in Hs as (n & -> & Hf & l & Hl & Hm). cbn [Nat.add] in *.
  destruct (scan_block_inv _ _ _ _ _ Hsc) as (m & new & -> & -> & Hm' & Hstop & Hin).
  cbn [app] in *. rewrite length_drop in Hm'.
  assert (Hlt : n < length lines) by (by eapply lookup_lt_Some).
  split; [done|]. split.
  { split; [|lia]. destruct m as [|m]; [|lia].
    exfalso. destruct (Hstop l) as [Hnone _].
    - rewrite lookup_drop. by rewrite Nat.add_0_r.
    - rewrite Hnone in Hm. by destruct Hm. }
  split.
  { intros l' Hl'. apply Hstop. by rewrite lookup_drop. }
  intros inc Hi. destruct (Hin inc Hi) as (i & Hi1 & Hi2 & Hi3 & Hi4).
  rewrite lookup_drop in Hi3. rewrite Hi2. repeat split; try done; lia.
Qed.

(** ** Lines and line ends *)

Lemma string_ind2 (P : string → Prop) :
  P EmptyString → (∀ c, P (String c EmptyString)) →
  (∀ c c' s, P s → P (String c' s) → P (String c (String c' s))) →
  ∀ s, P s.
Proof.
  intros H0 H1 H2 s. cut (P s ∧ ∀ c, P (String c s)); [tauto|].
  induction s as [|c' s [IH1 IH2]]; [by split|].
  split; [apply IH2|]. intros c. apply H2; [done|apply IH2].
Qed.

Lemma universal_newlines_cons2 c c' s :
  universal_newlines (String c (String c' s))
  = if Ascii.eqb c CR then
      if Ascii.eqb c' NL then String NL (universal_newlines s)
      else String NL (universal_newlines (String c' s))
    else String c (universal_newlines (String c' s)).
Proof. done. Qed.

Lemma splitlines_cons2 k c c' s :
  splitlines k (String c (String c' s))
  = if is_linebreak c then
      if Ascii.eqb c CR && Ascii.eqb c' NL
      then (if k then String c (String c' EmptyString) else EmptyString)
             :: splitlines k s
      else (if k then String c EmptyString else EmptyString)
             :: splitlines k (String c' s)
    else
      match splitlines k (String c' s) with
      | [] => [String c EmptyString]
      | l :: ls => String c l :: ls
      end.
Proof. done. Qed.

Lemma universal_newlines_no_cr s : has_cr (universal_newlines s) = false.
Proof.
  induction s as [|c|c c' s IH1 IH2] using string_ind2; [done|..].
  - cbn. destruct (Ascii.eqb c CR) eqn:E; cbn; [done|]. by rewrite E.
  - rewrite universal_newlines_cons2. destruct (Ascii.eqb c CR) eqn:E.
    + destruct (Ascii.eqb c' NL); cbn [has_cr]; [by rewrite IH1|by rewrite IH2].
    + cbn [has_cr]. by rewrite E, IH2.
Qed.

Lemma universal_newlines_id s : has_cr s = false → universal_newlines s = s.
Proof.
  induction s as [|c s IH]; [done|]. cbn.
  intros [Hc Hs]%orb_false_iff. rewrite Hc. f_equal. by apply IH.
Qed.

Lemma has_cr_app a b : has_cr (a +:+ b) = has_cr a || has_cr b.
Proof. induction a as [|c a IH]; [done|]. cbn. by rewrite IH, orb_assoc. Qed.

Lemma has_cr_join ls :
  Forall (λ l, has_cr l = false) ls → has_cr (Py.join ls) = false.
Proof.
  induction 1 as [|l ls Hl _ IH]; [done|]. cbn. by rewrite has_cr_app, Hl, IH.
Qed.


Lemma join_splitlines s : Py.join (splitlines true s) = s.
Proof.
  induction s as [|c|c c' s IH1 IH2] using string_ind2; [done|..].
  - cbn. by destruct (is_linebreak c).
  - rewrite splitlines_cons2. destruct (is_linebreak c) eqn:E.
    + destruct (Ascii.eqb c CR && Ascii.eqb c' NL); cbn [Py.join].
      * by rewrite IH1.
      * by rewrite IH2.
    + destruct (splitlines true (String c' s)) as [|l ls] eqn:E2.
      * by rewrite <- IH2.
      * rewrite <- IH2. done.
Qed.

Lemma splitlines_no_cr k s :
  has_cr s = false → Forall (λ l, has_cr l = false) (splitlines k s).
Proof.
  induction s as [|c|c c' s IH1 IH2] using string_ind2; intros H.
  - constructor.
  - cbn in *. destruct (is_linebreak c), k; repeat constructor; done.
  - cbn [has_cr] in H. apply orb_false_iff in H as [Hc H].
    specialize (IH2 H). cbn [has_cr] in H.
    pose proof H as H'. apply orb_false_iff in H' as [Hc' Hs].
    specialize (IH1 Hs).
    rewrite splitlines_cons2. rewrite Hc. cbn [andb].
    destruct (is_linebreak c).
    + constructor; [|done]. destruct k; [cbn; by rewrite Hc|done].
    + destruct (splitlines k (String c' s)) as [|l ls]; constructor.
      * cbn. by rewrite Hc.
      * constructor.
      * cbn. rewrite Hc. by inversion IH2.
      * by inversion IH2.
Qed.

(** ** The rewritten file *)

Lemma rebuild_file_eq lines start end_ block keep :
  rebuild_file lines start end_ block keep
  = take start lines
    ++ ((with_newline <$> first_kept keep (text <$> block))
        ++ separator lines end_ (with_newline <$> first_kept keep (text <$> block)))
    ++ drop end_ lines.
Proof.
  unfold rebuild_file, separator.
  rewrite rebuild_block_kept, kept_texts_first_kept. cbn [app].
  by destruct (_ && _); rewrite ?app_nil_r.
Qed.

Lemma first_kept_elem keep texts t :
  t ∈ first_kept keep texts ↔ t ∈ keep ∧ t ∈ texts.
Proof.
  assert (H : ∃ block, texts = text <$> block).
  { exists ((λ t, mkIncludeLine 0 t EmptyString) <$> texts).
    rewrite <- list_fmap_compose. by rewrite list_fmap_id. }
  destruct H as [block ->].
  rewrite <- kept_texts_first_kept, kept_texts_elem. set_solver.
Qed.

Lemma rebuild_file_Forall (P : string → Prop) lines start end_ block keep :
  Forall P lines → P Py.LF → (∀ t, P t → P (with_newline t)) →
  (∀ inc, inc ∈ block → text inc ∈ lines) →
  Forall P (rebuild_file lines start end_ block keep).
Proof.
  intros Hl Hlf Hw Hb. rewrite rebuild_file_eq.
  rewrite Forall_forall in Hl.
  apply Forall_app; split; [apply Forall_take; by apply Forall_forall|].
  apply Forall_app; split; [|apply Forall_drop; by apply Forall_forall].
  apply Forall_app; split.
  - apply Forall_fmap, Forall_forall. intros t [_ Ht]%first_kept_elem. cbn.
    apply Hw, Hl. apply list_elem_of_fmap in Ht as (inc & -> & Hin). by apply Hb.
  - unfold separator. destruct (_ && _); by repeat constructor.
Qed.

Lemma endswith_iff s suf :
  Py.endswith s suf = true ↔ ∃ pre, s = pre +:+ suf.
Proof.
  split; [|intros (pre & ->); apply endswith_append].
  induction s as [|c r IH]; cbn [Py.endswith].
  - destruct (String.eqb "" suf) eqn:E; [|done].
    apply String.eqb_eq in E as <-. by exists EmptyString.
  - destruct (String.eqb (String c r) suf) eqn:E.
    + apply String.eqb_eq in E as <-. by exists EmptyString.
    + intros (pre & ->)%IH. by exists (String c pre).
Qed.

(** C6: [rebuild_file] returns the lines before [start], the new block,
    and the lines from [end] on, both as they were. The new block holds, in
    the order of the original block and at the place of its first
    appearance, one line for each kept include text: the text itself when it
    ends with a line feed, and the text with a line feed added when it does
    not (and after them the separator of C7, if any). *)
Theorem rebuild_file_splice (lines : list string) (start end_ : nat)
    (include_block : list IncludeLine) (keep_texts : gset string) :
  let kept := first_kept keep_texts (text <$> include_block) in
  (∃ new_block sep,
     (sep = [] ∨ sep = [Py.LF])
     ∧ rebuild_file lines start end_ include_block keep_texts
       = take start lines ++ (new_block ++ sep) ++ drop end_ lines
     ∧ Forall2 (λ t l, (∃ body, t = body +:+ Py.LF) ∧ l = t
                       ∨ (¬ ∃ body, t = body +:+ Py.LF) ∧ l = t +:+ Py.LF)
         kept new_block
     ∧ Forall (λ l, ∃ body, l = body +:+ Py.LF) new_block)
  ∧ NoDup kept
  ∧ kept `sublist_of` (text <$> include_block)
  ∧ (∀ t, t ∈ kept ↔ t ∈ keep_texts ∧ t ∈ (text <$> include_block)).
Proof.
  intros kept. split; [|split; [|split]].
  - exists (with_newline <$> kept), (separator lines end_ (with_newline <$> kept)).
    split; [|split; [|split]].
    + unfold separator. destruct (_ && _); auto.
    + apply rebuild_file_eq.
    + apply Forall2_fmap_r, Forall_Forall2_diag, Forall_forall.
      intros t _. cbn beta. unfold with_newline.
      destruct (Py.endswith t Py.LF) eqn:E.
      * left. split; [by apply endswith_iff|by rewrite E].
      * right. split; [|by rewrite E]. intros H%endswith_iff. congruence.
    + apply Forall_fmap, Forall_forall. intros t _. cbn.
      apply endswith_iff, with_newline_ends.
  - unfold kept. rewrite <- kept_texts_first_kept. apply kept_texts_NoDup.
  - unfold kept. rewrite <- kept_texts_first_kept. apply kept_texts_sublist.
  - intros t. apply first_kept_elem.
Qed.

Lemma blank_truthy l : blank l = false ↔ Py.truthy (Py.strip l) = true.
Proof. unfold blank. by destruct (Py.truthy _). Qed.

Lemma separator_cond lines end_ kept :
  separator lines end_ kept = [Py.LF]
  ↔ kept ≠ [] ∧ (length lines ≤ end_ ∨ ∃ l, lines !! end_ = Some l ∧ blank l = false).
Proof.
  unfold separator, needs_separator. case_bool_decide as Hk; cbn [negb andb].
  - split; [done|]. by intros [? _].
  - destruct (lines !! end_) as [l|] eqn:El.
    + destruct (Py.truthy (Py.strip l)) eqn:Et.
      * split; [|done]. intros _. split; [done|]. right. exists l.
        by rewrite blank_truthy.
      * split; [done|]. intros [_ [Hlen|(l' & [= <-] & Hb)]].
        -- apply lookup_lt_Some in El. lia.
        -- apply blank_truthy in Hb. congruence.
    + split; [|done]. intros _. split; [done|]. left. by apply lookup_ge_None.
Qed.

Lemma separator_nil_or lines end_ kept :
  separator lines end_ kept = [Py.LF] ∨ separator lines end_ kept = [].
Proof. unfold separator. destruct (_ && _); auto. Qed.

(** C7, as amended: [rebuild_file] puts exactly one line feed after the
    new include block if and only if the block is not empty and either the
    original block runs to the end of the file or the line after it is not
    blank; otherwise it puts none. *)
Theorem rebuild_file_separator (lines : list string) (start end_ : nat)
    (include_block : list IncludeLine) (keep_texts : gset string) :
  let kept := first_kept keep_texts (text <$> include_block) in
  let cond := kept ≠ []
              ∧ (length lines ≤ end_
                 ∨ ∃ l, lines !! end_ = Some l ∧ blank l = false) in
  (separator_added lines start end_ include_block keep_texts ↔ cond)
  ∧ (¬ cond →
     rebuild_file lines start end_ include_block keep_texts
     = take start lines ++ (with_newline <$> kept) ++ drop end_ lines).
Proof.
  intros kept cond.
  assert (Hc : separator lines end_ (with_newline <$> kept) = [Py.LF] ↔ cond).
  { rewrite separator_cond. unfold cond.
    split; intros [Hk ?]; (split; [|done]); intros E; apply Hk;
      [by rewrite E|by apply fmap_nil_inv in E]. }
  split; [split|].
  - unfold separator_added. rewrite rebuild_file_eq. fold kept.
    intros E. apply app_inv_head in E. rewrite <- app_assoc in E.
    apply app_inv_head in E. apply Hc.
    destruct (separator_nil_or lines end_ (with_newline <$> kept)) as [E'|E'];
      [done|].
    rewrite E' in E. apply (f_equal length) in E. cbn in E. lia.
  - intros H. apply Hc in H. unfold separator_added.
    rewrite rebuild_file_eq. fold kept. by rewrite H, <- app_assoc.
  - intros Hn. rewrite rebuild_file_eq. fold kept.
    destruct (separator_nil_or lines end_ (with_newline <$> kept)) as [E|E];
      [by apply Hc in E|by rewrite E, app_nil_r].
Qed.

(** C7, counterexample: a file that is one include line and nothing else.
    The kept include is followed by a separator although no line, blank or
    not, follows the block. *)
Lemma separator_without_next_line :
  let l := "#include <a.h>" +:+ Py.LF in
  ¬ (separator_added [l] 0 1 [mkIncludeLine 0 l "a.h"] {[ l ]}
     ↔ separator_claimed [l] 1 [mkIncludeLine 0 l "a.h"] {[ l ]}).
Proof.
  intros l [H _].
  destruct H as [_ (l' & Hl & _)]; [|discriminate].
  vm_compute. reflexivity.
Qed.

(** ** Sample worlds *)

(** ** Temporary files *)



(** ** Classification *)

(** A line that occurs twice can be deleted once without changing which
    lines occur. *)
Lemma delete_duplicate {A} (l : list A) i j t x :
  l !! i = Some t → l !! j = Some t → i ≠ j →
  x ∈ delete i l ↔ x ∈ l.
Proof.
  intros Hi Hj Hne. split.
  - apply sublist_subseteq, sublist_delete.
  - assert (Hkeep : ∀ k y, k ≠ i → l !! k = Some y → y ∈ delete i l).
    { intros k y Hk Hy. apply list_elem_of_lookup.
      destruct (decide (k < i)).
      - exists k. by rewrite list_lookup_delete_lt.
      - exists (pred k). rewrite list_lookup_delete_ge by lia.
        by replace (S (pred k)) with k by lia. }
    intros [k Hk]%list_elem_of_lookup.
    destruct (decide (k = i)) as [->|]; [|by eapply Hkeep].
    assert (x = t) as -> by congruence. by eapply (Hkeep j).
Qed.

(** C4, as amended: once the baseline compiled there is one compiler run
    for the baseline and one per include line, each on the whole file less
    that one line; a text is in the needed set exactly when the file
    without some line that holds this text fails to compile, so an include
    whose text occurs once in the block is needed exactly when the file
    without it fails. *)
Theorem determine_needed_classification (cc : toolchain) (file_path : string)
    (include_block : list IncludeLine) (lines : list string)
    (compiler : string) (includes cflags : list string) (verbose : bool)
    (w : world) :
  let v := verdict cc compiler (cflags ++ includes) in
  starts cc compiler (cflags ++ includes) →
  v (Py.join lines) = true →
  ∃ needed w',
    determine_needed cc file_path include_block lines compiler includes
      cflags verbose w = (Ok (needed, true), w')
    ∧ invoked w'
      = invoked w ++ Py.join lines
          :: ((λ inc, Py.join (take (idx inc) lines ++ drop (S (idx inc)) lines))
                <$> include_block)
    ∧ length (invoked w') = length (invoked w) + 1 + length include_block
    ∧ (∀ t, t ∈ needed ↔
         ∃ inc, inc ∈ include_block ∧ text inc = t
                ∧ v (Py.join (delete (idx inc) lines)) = false)
    ∧ (∀ inc, inc ∈ include_block →
         (∀ inc', inc' ∈ include_block → text inc' = text inc → inc' = inc) →
         (text inc ∈ needed ↔ v (Py.join (delete (idx inc) lines)) = false)).
Proof.
  intros v Hs Hv.
  destruct (determine_needed_runs cc file_path include_block lines compiler
              includes cflags verbose w Hs) as (w' & E & R).
  fold v in E, R. rewrite Hv in E, R.
  exists (needed_texts v lines include_block), w'. split; [done|].
  destruct R as [_ _ I _ _ _].
  assert (I' : invoked w' = invoked w ++ Py.join lines
            :: ((λ inc, Py.join (take (idx inc) lines ++ drop (S (idx inc)) lines))
                  <$> include_block)).
  { rewrite I. do 2 f_equal. apply list_fmap_ext. intros _ inc _.
    by rewrite delete_take_drop. }
  split; [done|]. split.
  { rewrite I', length_app. cbn. rewrite length_fmap. lia. }
  split; [apply needed_texts_elem|].
  intros inc Hin Huniq. rewrite needed_texts_elem. split.
  - intros (inc' & Hin' & Ht & Hf). by rewrite <- (Huniq inc' Hin' Ht).
  - intros Hf. by exists inc.
Qed.

(** C4, witness: two different includes, none needed. *)
Lemma determine_needed_classification_witness :
  ∃ needed w',
    determine_needed cc_accept "f.c"
      [mkIncludeLine 0 inc_a "a.h"; mkIncludeLine 1 inc_b "b.h"]
      [inc_a; inc_b; code_x] "cc" [] [] false empty_world
    = (Ok (needed, true), w')
    ∧ length (invoked w') = 3.
Proof.
  destruct (determine_needed_classification cc_accept "f.c"
              [mkIncludeLine 0 inc_a "a.h"; mkIncludeLine 1 inc_b "b.h"]
              [inc_a; inc_b; code_x] "cc" [] [] false empty_world)
    as (needed & w' & E & _ & L & _).
  - intros t. by eexists.
  - reflexivity.
  - exists needed, w'. split; [exact E|exact L].
Defined.

(** C4, counterexample: [a.h], [b.h], [a.h] again, with [b.h] in need of
    an earlier [a.h]. Without the first line the file fails, so the text of
    [a.h] is needed; the third line holds the same text although the file
    without the third line compiles. *)
Lemma duplicate_called_needed :
  let lines := [inc_a; inc_b; inc_a] in
  let block := [mkIncludeLine 0 inc_a "a.h"; mkIncludeLine 1 inc_b "b.h";
                mkIncludeLine 2 inc_a "a.h"] in
  let v := verdict cc_order "cc" [] in
  ∃ needed w',
    find_include_block lines = Some (0, 3, block)
    ∧ v (Py.join lines) = true
    ∧ determine_needed cc_order "f.c" block lines "cc" [] [] false empty_world
      = (Ok (needed, true), w')
    ∧ ¬ classified_per_line v lines block needed.
Proof.
  intros lines block v.
  destruct (determine_needed_runs cc_order "f.c" block lines "cc" [] [] false
              empty_world) as (w' & E & _); [intros t; by eexists|].
  eexists _, w'. split; [by vm_compute|]. split; [by vm_compute|].
  split; [exact E|].
  intros H.
  assert (Hin : mkIncludeLine 2 inc_a "a.h" ∈ block)
    by apply list_elem_of_further, list_elem_of_further, list_elem_of_here.
  apply H in Hin as [Hn _].
  assert (Hf : v (Py.join (delete 2 lines)) = false); [|by vm_compute in Hf].
  apply Hn, needed_texts_elem. exists (mkIncludeLine 0 inc_a "a.h").
  split; [apply list_elem_of_here|]. split; [done|]. by vm_compute.
Qed.

(** ** A baseline that does not compile *)

Lemma process_all_false (cc : toolchain) files args includes cflags w b w' :
  process_all cc files args includes cflags false w = (Ok b, w') → b = false.
Proof.
  revert w. induction files as [|path rest IH]; intros w H.
  - by injection H as <- _.
  - cbn [process_all] in H. rewrite bind_run in H.
    destruct (process_file cc path args includes cflags w) as [[r|e] w1];
      [|done].
    rewrite andb_false_r in H. by eapply IH.
Qed.

(** C5: when the baseline of a file that has an include block
    fails to compile, [determine_needed] compiles nothing else and returns
    the empty set with the baseline flag down, [process_file] prints the
    baseline error and returns [False], which makes the run as a whole
    fail, and nothing is written. *)
Theorem baseline_failure (cc : toolchain) (path : string) (args : Args)
    (includes cflags : list string) (w : world) (t : string)
    (start end_ : nat) (include_block : list IncludeLine) :
  let v := verdict cc (arg_compiler args) (cflags ++ includes) in
  let lines := splitlines true (universal_newlines t) in
  starts cc (arg_compiler args) (cflags ++ includes) →
  disk w !! path = Some t →
  find_include_block lines = Some (start, end_, include_block) →
  v (Py.join lines) = false →
  (∃ w1, determine_needed cc path include_block lines (arg_compiler args)
           includes cflags (arg_verbose args) w = (Ok (∅, false), w1)
         ∧ invoked w1 = invoked w ++ [Py.join lines])
  ∧ (∃ w', process_file cc path args includes cflags w = (Ok false, w')
           ∧ last (console_out w') = Some (msg_error_baseline path)
           ∧ disk w' = disk w ∧ written w' = written w)
  ∧ (∀ rest ok b w'',
       process_all cc (path :: rest) args includes cflags ok w = (Ok b, w'') →
       b = false).
Proof.
  intros v lines Hs Hd Hb Hv. split; [|split].
  - destruct (determine_needed_runs cc path include_block lines
                (arg_compiler args) includes cflags (arg_verbose args) w Hs)
      as (w1 & E & R).
    fold v in E, R. rewrite Hv in E, R. exists w1. split; [done|]. apply R.
  - destruct (process_file_baseline_fails cc path args includes cflags w t
                start end_ include_block Hs Hd Hb Hv)
      as (w' & E & D & W & _ & _ & L).
    by exists w'.
  - intros rest ok b w'' H.
    destruct (process_file_baseline_fails cc path args includes cflags w t
                start end_ include_block Hs Hd Hb Hv) as (w' & E & _).
    cbn [process_all] in H. rewrite bind_run, E in H. cbn [andb] in H.
    by eapply process_all_false.
Qed.

(** C5, witness: one include, a compiler that rejects everything. *)
Lemma baseline_failure_witness :
  ∃ w', process_file cc_reject "a.c" (sample_args true false) [] []
          (one_file "a.c" (inc_a +:+ code_x)) = (Ok false, w')
        ∧ disk w' = disk (one_file "a.c" (inc_a +:+ code_x)).
Proof.
  destruct (baseline_failure cc_reject "a.c" (sample_args true false) [] []
              (one_file "a.c" (inc_a +:+ code_x)) (inc_a +:+ code_x)
              0 1 [mkIncludeLine 0 inc_a "a.h"])
    as (_ & (w' & E & _ & D & _) & _).
  - intros t. by eexists.
  - reflexivity.
  - reflexivity.
  - reflexivity.
  - exists w'. split; [exact E|exact D].
Defined.

(** ** Duplicated includes *)

Lemma splitlines_break c rest :
  is_linebreak c = true → c ≠ CR →
  splitlines true (String c rest) = String c EmptyString :: splitlines true rest.
Proof.
  intros Hc Hcr. destruct rest as [|c' r]; cbn [splitlines]; rewrite Hc; [done|].
  assert (E : Ascii.eqb c CR = false) by by apply Ascii.eqb_neq.
  by rewrite E.
Qed.

Lemma splitlines_terminated body c rest :
  has_break body = false → is_linebreak c = true → c ≠ CR →
  splitlines true (body +:+ String c rest)
  = (body +:+ String c EmptyString) :: splitlines true rest.
Proof.
  intros Hb Hc Hcr. induction body as [|a body IH].
  - by apply splitlines_break.
  - cbn [has_break] in Hb. apply orb_false_iff in Hb as [Ha Hb].
    specialize (IH Hb).
    change (String a body +:+ String c rest)
      with (String a (body +:+ String c rest)).
    destruct (body +:+ String c rest) as [|c' s] eqn:E.
    { by destruct body. }
    by rewrite splitlines_cons2, Ha, IH.
Qed.

Lemma splitlines_open l :
  l ≠ EmptyString → has_break l = false → splitlines true l = [l].
Proof.
  induction l as [|a l IH]; [done|]. intros _ H.
  cbn [has_break] in H. apply orb_false_iff in H as [Ha Hl].
  destruct l as [|b l]; [cbn; by rewrite Ha|].
  by rewrite splitlines_cons2, Ha, IH.
Qed.

Lemma splitlines_join_file ls :
  file_lines ls → splitlines true (Py.join ls) = ls.
Proof.
  induction 1 as [|l Hne Hb|l ls (body & c & -> & Hb & Hc & Hcr) _ IH].
  - done.
  - cbn [Py.join]. rewrite append_nil_r. by apply splitlines_open.
  - cbn [Py.join]. rewrite append_assoc.
    change (String c EmptyString +:+ Py.join ls) with (String c (Py.join ls)).
    by rewrite splitlines_terminated, IH.
Qed.

Lemma splitlines_file_lines s :
  has_cr s = false → file_lines (splitlines true s).
Proof.
  induction s as [|c r IH]; [constructor|]. intros H.
  cbn [has_cr] in H. apply orb_false_iff in H as [Hc Hr].
  apply Ascii.eqb_neq in Hc. specialize (IH Hr).
  destruct (is_linebreak c) eqn:Hb.
  - rewrite splitlines_break by done. apply file_lines_cons; [|done].
    by exists EmptyString, c.
  - assert (E : splitlines true (String c r)
                = match splitlines true r with
                  | [] => [String c EmptyString]
                  | l :: ls => String c l :: ls
                  end).
    { destruct r; cbn [splitlines]; by rewrite Hb. }
    rewrite E.
    inversion IH as [Hn|l Hne Hl Hn|l ls (body & c' & -> & Hl & Hc' & Hcr) Hls Hn].
    + apply file_lines_open; [done|]. cbn. by rewrite Hb.
    + apply file_lines_open; [done|]. cbn [has_break]. by rewrite Hb, Hl.
    + apply file_lines_cons; [|done]. exists (String c body), c'.
      split; [done|]. split; [|done]. cbn [has_break]. by rewrite Hb, Hl.
Qed.

Lemma file_lines_delete i ls : file_lines ls → file_lines (delete i ls).
Proof.
  intros H. revert i. induction H as [|l Hne Hb|l ls Ht Hls IH]; intros [|i];
    cbn; try done; by constructor.
Qed.

(** C10: when the verdict of the compiler depends only on which lines
    occur in the unit, and the include block of a file holds the same text
    on two lines, and the baseline compiles, that text is not in the needed
    set. *)
Theorem duplicate_never_needed (cc : toolchain) (file_path : string)
    (t : string) (start end_ : nat) (include_block : list IncludeLine)
    (compiler : string) (includes cflags : list string) (verbose : bool)
    (w : world) (inc1 inc2 : IncludeLine) :
  let v := verdict cc compiler (cflags ++ includes) in
  let lines := splitlines true (universal_newlines t) in
  starts cc compiler (cflags ++ includes) →
  (∀ t1 t2 : string,
     (∀ l, l ∈ splitlines true t1 ↔ l ∈ splitlines true t2) → v t1 = v t2) →
  find_include_block lines = Some (start, end_, include_block) →
  inc1 ∈ include_block → inc2 ∈ include_block →
  idx inc1 ≠ idx inc2 → text inc1 = text inc2 →
  v (Py.join lines) = true →
  ∃ needed w',
    determine_needed cc file_path include_block lines compiler includes
      cflags verbose w = (Ok (needed, true), w')
    ∧ text inc1 ∉ needed.
Proof.
  intros v lines Hs Hset Hb H1 H2 Hidx Htext Hv.
  destruct (determine_needed_runs cc file_path include_block lines compiler
              includes cflags verbose w Hs) as (w' & E & _).
  fold v in E. rewrite Hv in E.
  exists (needed_texts v lines include_block), w'. split; [done|].
  intros (inc & Hin & Ht & Hf)%needed_texts_elem.
  apply find_include_block_inv in Hb as (_ & _ & _ & Hblock).
  destruct (Hblock inc Hin) as (_ & Li & _).
  destruct (Hblock inc1 H1) as (_ & L1 & _).
  destruct (Hblock inc2 H2) as (_ & L2 & _).
  assert (∃ j, j ≠ idx inc ∧ lines !! j = Some (text inc)) as (j & Hj & Lj).
  { destruct (decide (idx inc1 = idx inc)) as [E1|E1].
    - exists (idx inc2). split; [congruence|]. by rewrite L2, <- Htext, Ht.
    - exists (idx inc1). split; [done|]. by rewrite L1, Ht. }
  assert (Hfl : file_lines lines)
    by apply splitlines_file_lines, universal_newlines_no_cr.
  rewrite (Hset (Py.join (delete (idx inc) lines)) (Py.join lines)) in Hf;
    [congruence|].
  intros x.
  rewrite (splitlines_join_file _ (file_lines_delete (idx inc) _ Hfl)),
          (splitlines_join_file _ Hfl).
  by eapply delete_duplicate.
Qed.

(** C10, witness: the include of [a.h] twice, then that of [b.h]; the
    compiler looks for the line that includes [b.h] and for nothing else.
    The include of [a.h] is not needed, that of [b.h] is. *)
Lemma duplicate_never_needed_witness :
  ∃ needed w',
    determine_needed cc_needs_b_line "f.c"
      [mkIncludeLine 0 inc_a "a.h"; mkIncludeLine 1 inc_a "a.h";
       mkIncludeLine 2 inc_b "b.h"]
      [inc_a; inc_a; inc_b; code_x] "cc" [] [] false empty_world
    = (Ok (needed, true), w')
    ∧ (inc_a ∉ needed) ∧ (inc_b ∈ needed).
Proof.
  destruct (duplicate_never_needed cc_needs_b_line "f.c"
              (inc_a +:+ inc_a +:+ inc_b +:+ code_x) 0 3
              [mkIncludeLine 0 inc_a "a.h"; mkIncludeLine 1 inc_a "a.h";
               mkIncludeLine 2 inc_b "b.h"]
              "cc" [] [] false empty_world
              (mkIncludeLine 0 inc_a "a.h") (mkIncludeLine 1 inc_a "a.h"))
    as (needed & w' & E & Hn).
  - intros t. by eexists.
  - intros t1 t2 H. unfold verdict, cc_needs_b_line. cbn [completed returncode].
    by rewrite (bool_decide_ext _ _ (H inc_b)).
  - reflexivity.
  - apply list_elem_of_here.
  - apply list_elem_of_further, list_elem_of_here.
  - discriminate.
  - reflexivity.
  - reflexivity.
  - exists needed, w'. split; [exact E|]. split; [exact Hn|].
    revert E. vm_compute. intros [= <- _]. by vm_compute.
Defined.

(** ** Rewrite mode *)

Lemma block_texts_in_lines lines start end_ block :
  find_include_block lines = Some (start, end_, block) →
  ∀ inc, inc ∈ block → text inc ∈ lines.
Proof.
  intros Hb inc Hin.
  apply find_include_block_inv in Hb as (_ & _ & _ & Hblock).
  destruct (Hblock inc Hin) as (_ & L & _). by eapply list_elem_of_lookup_2.
Qed.

Lemma with_newline_no_cr t : has_cr t = false → has_cr (with_newline t) = false.
Proof.
  intros H. unfold with_newline. destruct (Py.endswith t Py.LF); [done|].
  by rewrite has_cr_app, H.
Qed.

(** What [process_file] writes reads back as it was written. *)
Lemma rebuilt_reads_back t start end_ block keep :
  let lines := splitlines true (universal_newlines t) in
  find_include_block lines = Some (start, end_, block) →
  universal_newlines (Py.join (rebuild_file lines start end_ block keep))
  = Py.join (rebuild_file lines start end_ block keep).
Proof.
  intros lines Hb. apply universal_newlines_id, has_cr_join.
  apply rebuild_file_Forall.
  - apply splitlines_no_cr, universal_newlines_no_cr.
  - done.
  - apply with_newline_no_cr.
  - by eapply block_texts_in_lines.
Qed.

Lemma last_fmap_seq {A} (f : nat → A) k : last (f <$> seq 0 (S k)) = Some (f k).
Proof. rewrite seq_S, fmap_app. cbn. apply last_snoc. Qed.

(** C1: in rewrite mode, on a file whose baseline compiles, [process_file]
    ends either with [True] and a file on disk that the compiler accepts
    (the untouched input, or a text written just after it was the last
    unit compiled, and accepted), or with [False], the error printed and
    nothing written. After the baseline and the one-line removals the
    units compiled are the candidates with the needed includes and the
    first 0, 1, 2, ... removed includes in their original order, up to the
    first one that compiles or to the one with all of them. *)
Theorem process_file_fix_sound (cc : toolchain) (path : string) (args : Args)
    (includes cflags : list string) (w : world) (t : string) :
  let v := verdict cc (arg_compiler args) (cflags ++ includes) in
  let lines := splitlines true (universal_newlines t) in
  arg_fix args = true →
  starts cc (arg_compiler args) (cflags ++ includes) →
  disk w !! path = Some t →
  v (universal_newlines t) = true →
  ∃ r w',
    process_file cc path args includes cflags w = (Ok r, w')
    ∧ (if r then
         ∃ t', disk w' !! path = Some t'
               ∧ v (universal_newlines t') = true
               ∧ (written w' = written w ∧ disk w' = disk w
                  ∨ written w' = written w ++ [(path, t')]
                    ∧ disk w' = <[path := t']> (disk w)
                    ∧ last (invoked w') = Some t' ∧ v t' = true)
       else
         disk w' = disk w ∧ written w' = written w
         ∧ last (console_out w') = Some (msg_error_trimmed path))
    ∧ (∀ start end_ block,
         find_include_block lines = Some (start, end_, block) →
         ∃ k, k ≤ length (removed_of v lines block)
              ∧ invoked w'
                = invoked w ++ Py.join lines
                    :: ((λ inc, Py.join (delete (idx inc) lines)) <$> block)
                    ++ (candidate v lines start end_ block <$> seq 0 (S k))
              ∧ (∀ j, j < k → v (candidate v lines start end_ block j) = false)
              ∧ v (candidate v lines start end_ block k) = r
              ∧ (r = false → k = length (removed_of v lines block))).
Proof.
  intros v lines Hfix Hs Hd Hv.
  destruct (find_include_block lines) as [[[start end_] block]|] eqn:Hb.
  - assert (Hv' : v (Py.join lines) = true)
      by (unfold lines; by rewrite join_splitlines).
    destruct (process_file_fix_cases cc path args includes cflags w t
                start end_ block Hfix Hs Hd Hb Hv') as (r & w' & E & Ho).
    exists r, w'. split; [done|].
    inversion Ho as [w0 Hf I D W T L|k w0 keep nl Hk Hf Hc I T Hw]; subst.
    + split; [done|]. intros s e b [= <- <- <-].
      exists (length (removed_of v lines block)).
      split; [done|]. split; [done|]. split; [intros j Hj; apply Hf; by apply Nat.lt_le_incl|].
      split; [by apply Hf|done].
    + split.
      * subst nl keep. case_bool_decide as Hneq.
        -- destruct Hw as (D & W & L).
           exists (candidate v lines start end_ block k).
           split; [rewrite D; apply lookup_insert_eq|].
           split.
           { replace (universal_newlines (candidate v lines start end_ block k))
               with (candidate v lines start end_ block k); [done|].
             symmetry. apply (rebuilt_reads_back t start end_ block _ Hb). }
           right. split; [done|]. split; [done|]. split; [|done].
           rewrite I, app_comm_cons, app_assoc, last_app.
           by rewrite last_fmap_seq.
        -- destruct Hw as (D & W & _). exists t.
           split; [by rewrite D|]. split; [done|]. by left.
      * intros s e b [= <- <- <-]. exists k.
        split; [done|]. split; [done|]. split; [done|]. split; [done|done].
  - destruct (process_file_no_block cc path args includes cflags w t Hd Hb)
      as (w' & E & D & W & _).
    exists true, w'. split; [done|]. split; [|done].
    exists t. split; [by rewrite D|]. split; [done|]. by left.
Qed.

(** C1, witness: both includes go one at a time, the block without them
    fails, and the repair loop stops after putting [a.h] back. *)
Lemma process_file_fix_sound_witness :
  ∃ w', process_file cc_either "a.c" (sample_args true false) [] []
          (one_file "a.c" (inc_a +:+ inc_b +:+ code_x)) = (Ok true, w')
        ∧ disk w' !! "a.c" = Some (inc_a +:+ Py.LF +:+ code_x)
        ∧ length (invoked w') = 5.
Proof.
  destruct (process_file_fix_sound cc_either "a.c" (sample_args true false)
              [] [] (one_file "a.c" (inc_a +:+ inc_b +:+ code_x))
              (inc_a +:+ inc_b +:+ code_x))
    as (r & w' & E & _ & _).
  - reflexivity.
  - intros t. by eexists.
  - reflexivity.
  - reflexivity.
  - exists w'. revert E. vm_compute. intros [= <- <-]. by vm_compute.
Defined.

(** ** The run over the file list *)






(** ** Flags from the Makefile *)

Lemma join_names_snoc ns n :
  ns ≠ [] →
  pathlib.join_names (ns ++ [n]) = pathlib.join_names ns +:+ "/" +:+ n.
Proof.
  induction ns as [|a [|b ns] IH]; intros H; [done|done|].
  cbn [app pathlib.join_names] in *. rewrite IH by done.
  by rewrite !append_assoc.
Qed.

Lemma render_nonempty rt ns :
  ns ≠ [] → pathlib.render rt ns = rt +:+ pathlib.join_names ns.
Proof. by destruct rt, ns. Qed.

(** Under a directory in normal form other than the root, a name is
    joined with one slash. *)
Lemma joinpath_name D n :
  pathlib.Path D = D → pathlib.names D ≠ [] →
  pathlib.is_absolute n = false → pathlib.names n = [n] →
  pathlib.joinpath D n = D +:+ String "/" n.
Proof.
  intros HD Hn Ha Hnn. unfold pathlib.joinpath. rewrite Ha, Hnn.
  rewrite render_nonempty by (by destruct (pathlib.names D)).
  rewrite join_names_snoc by done.
  unfold pathlib.Path in HD. rewrite render_nonempty in HD by done.
  by rewrite <- HD at 3; rewrite !append_assoc.
Qed.

Lemma readable_read w path t :
  readable w path t → read_text path w = (Ok (universal_newlines t), w).
Proof. unfold read_text. by intros [-> | [-> ->]]. Qed.

Lemma readable_exists w path t : readable w path t → exists_ path w = true.
Proof.
  intros H. apply bool_decide_eq_true. destruct H as [H | [_ H]];
    [left|right]; by rewrite H.
Qed.

Lemma parse_make_vars_readable makefile w t :
  readable w makefile t →
  parse_make_vars makefile w
  = (Ok (expand (scan_assignments (splitlines false (universal_newlines t)) ∅)
         <$> scan_assignments (splitlines false (universal_newlines t)) ∅), w).
Proof.
  intros H. unfold parse_make_vars.
  by rewrite (readable_exists _ _ _ H), bind_run, (readable_read _ _ _ H).
Qed.

(** C9, as amended: for the flags file made of the line
    [INCLUDES = -Iinc $(EXTRA)] and the line [EXTRA = -Ivendor],
    [makefile_flags] returns exactly two include flags and no compiler
    flag: [-I] followed by what [Path.resolve] makes of [inc] under [D], and
    the same for [vendor], where [D] is the resolved directory of the flags
    file. They are [-I<D>/inc] and [-I<D>/vendor] when [D] is in normal form
    and not the root and [Path.resolve] leaves the two directories as they
    are, which it does when neither is reached through a symbolic link. *)
Theorem makefile_flags_scenario (resolve : string → string) (makefile : string)
    (w : world) :
  let D := resolve (pathlib.parent makefile) in
  readable w makefile scenario_makefile →
  makefile_flags resolve makefile w
  = (Ok (["-I" +:+ resolve (pathlib.joinpath D "inc");
          "-I" +:+ resolve (pathlib.joinpath D "vendor")], []), w)
  ∧ (pathlib.Path D = D → pathlib.names D ≠ [] →
     resolve (D +:+ "/inc") = D +:+ "/inc" →
     resolve (D +:+ "/vendor") = D +:+ "/vendor" →
     makefile_flags resolve makefile w
     = (Ok (["-I" +:+ D +:+ "/inc"; "-I" +:+ D +:+ "/vendor"], []), w)).
Proof.
  intros D Hd.
  assert (E : makefile_flags resolve makefile w
    = (Ok (["-I" +:+ resolve (pathlib.joinpath D "inc");
            "-I" +:+ resolve (pathlib.joinpath D "vendor")], []), w)).
  { unfold makefile_flags. rewrite bind_run.
    rewrite (parse_make_vars_readable _ _ _ Hd).
    set (vars := expand _ <$> _).
    assert (Hi : vars !! "INCLUDES" = Some "-Iinc -Ivendor") by by vm_compute.
    assert (Hc : vars !! "CFLAGS" = None) by by vm_compute.
    rewrite Hi, Hc. cbn [default from_option id].
    assert (H1 : shlex_split "-Iinc -Ivendor" w = (Ok ["-Iinc"; "-Ivendor"], w))
      by by vm_compute.
    assert (H2 : shlex_split "" w = (Ok [], w)) by by vm_compute.
    rewrite bind_run, H1, bind_run, H2. cbn [mret M_ret]. fold D.
    reflexivity. }
  split; [done|]. intros Hnorm Hnames Hinc Hvendor.
  rewrite E, !joinpath_name by done. by rewrite Hinc, Hvendor.
Qed.

(** C9, witness: the flags file is [/proj/Makefile] and nothing under
    [/proj] is a link. *)
Lemma makefile_flags_scenario_witness :
  makefile_flags id "/proj/Makefile"
    (one_file "/proj/Makefile" scenario_makefile)
  = (Ok (["-I/proj/inc"; "-I/proj/vendor"], []),
     one_file "/proj/Makefile" scenario_makefile).
Proof.
  destruct (makefile_flags_scenario id "/proj/Makefile"
              (one_file "/proj/Makefile" scenario_makefile)) as [_ H];
    [by left|].
  apply H; try reflexivity. discriminate.
Defined.

(** C9, counterexample: [inc] under the directory of the flags file is a
    symbolic link to [/srv/headers]; the first flag names the target of the
    link and not [inc] under that directory. *)
Lemma symlinked_include_dir :
  makefile_flags resolve_link "/proj/Makefile"
    (one_file "/proj/Makefile" scenario_makefile)
  = (Ok (["-I/srv/headers"; "-I/proj/vendor"], []),
     one_file "/proj/Makefile" scenario_makefile)
  ∧ ¬ flags_claimed resolve_link "/proj/Makefile"
        (one_file "/proj/Makefile" scenario_makefile).
Proof.
  assert (E : makefile_flags resolve_link "/proj/Makefile"
                (one_file "/proj/Makefile" scenario_makefile)
              = (Ok (["-I/srv/headers"; "-I/proj/vendor"], []),
                 one_file "/proj/Makefile" scenario_makefile))
    by (vm_compute; reflexivity).
  split; [done|]. intros (cflags & H). rewrite E in H. discriminate.
Qed.

(** ** Files whose lines end with a line feed *)

Lemma splitlines_lf_line body rest :
  has_break body = false →
  splitlines true (body +:+ Py.LF +:+ rest)
  = (body +:+ Py.LF) :: splitlines true rest.
Proof.
  induction body as [|c body IH]; intros H.
  - cbn. by destruct rest.
  - cbn [has_break] in H. apply orb_false_iff in H as [Hc Hb].
    specialize (IH Hb).
    change (String c body +:+ Py.LF +:+ rest)
      with (String c (body +:+ Py.LF +:+ rest)).
    destruct (body +:+ Py.LF +:+ rest) as [|c' s] eqn:E.
    { by destruct body. }
    rewrite splitlines_cons2, Hc, IH. done.
Qed.

Lemma splitlines_join ls :
  Forall lf_line ls → splitlines true (Py.join ls) = ls.
Proof.
  induction 1 as [|l ls (body & -> & Hb) _ IH]; [done|].
  cbn [Py.join]. rewrite append_assoc, splitlines_lf_line by done.
  by rewrite IH.
Qed.

Lemma lf_line_with_newline l : lf_line l → with_newline l = l.
Proof. intros (body & -> & _). apply with_newline_id, endswith_append. Qed.

Lemma lf_line_LF : lf_line Py.LF.
Proof. by exists EmptyString. Qed.

(** ** A block that is kept whole *)

Lemma kept_texts_all block keep seen :
  NoDup (text <$> block) →
  (∀ t, t ∈ (text <$> block) → t ∈ keep ∧ t ∉ seen) →
  kept_texts block keep seen = text <$> block.
Proof.
  revert seen. induction block as [|inc rest IH]; intros seen Hnd Hall; [done|].
  cbn [kept_texts fmap list_fmap] in *. apply NoDup_cons in Hnd as [Hni Hnd].
  destruct (Hall (text inc)) as [Hk Hs]; [left|].
  rewrite (bool_decide_eq_true_2 _ Hk), (bool_decide_eq_false_2 _ Hs).
  cbn [andb negb]. f_equal. apply IH; [done|].
  intros t Ht. destruct (Hall t) as [Hk' Hs']; [by right|].
  split; [done|]. intros [Heq%elem_of_singleton|?]%elem_of_union; [|done].
  by subst.
Qed.

(** ** The block of a rewritten file *)

Lemma records_text e ts : text <$> records e ts = ts.
Proof.
  unfold records. revert e. induction ts as [|t ts IH]; intros e; [done|].
  cbn. f_equal. rewrite <- (IH (S e)) at 2. f_equal.
  apply imap_ext. intros i x _. cbn. f_equal. lia.
Qed.

Lemma records_cons e t ts :
  records e (t :: ts)
  = mkIncludeLine e t (default EmptyString (INCLUDE_RE_match t))
    :: records (S e) ts.
Proof.
  unfold records. cbn. rewrite Nat.add_0_r. f_equal.
  apply imap_ext. intros i x _. cbn. f_equal. lia.
Qed.

Lemma scan_block_includes ts rest e acc :
  Forall (λ t, is_Some (INCLUDE_RE_match t)) ts →
  scan_block (ts ++ rest) e acc
  = scan_block rest (e + length ts) (acc ++ records e ts).
Proof.
  intros H. revert e acc. induction H as [|t ts [tg Ht] _ IH]; intros e acc.
  - cbn. by rewrite Nat.add_0_r, app_nil_r.
  - cbn [app scan_block]. rewrite Ht, IH, records_cons, Ht. cbn [default from_option id].
    rewrite <- app_assoc. cbn. do 2 f_equal. lia.
Qed.

Lemma scan_block_stop rest e acc :
  (∀ l, rest !! 0 = Some l → INCLUDE_RE_match l = None ∧ blank l = false) →
  scan_block rest e acc = (e, acc).
Proof.
  intros H. destruct rest as [|l rest]; [done|].
  destruct (H l) as [Hm Hb]; [done|]. cbn [scan_block]. by rewrite Hm, Hb.
Qed.

Lemma find_start_skip pre rest i :
  Forall (λ l, INCLUDE_RE_match l = None) pre →
  find_start (pre ++ rest) i = find_start rest (i + length pre).
Proof.
  intros H. revert i. induction H as [|l pre Hl _ IH]; intros i.
  - cbn. by rewrite Nat.add_0_r.
  - cbn [app find_start]. rewrite Hl, IH. cbn. f_equal. lia.
Qed.

(** A file made of lines without include, then include lines, then one
    line feed, then nothing or a line that is neither: its block is the
    include lines and the line feed. *)
Lemma find_include_block_normal pre ts rest :
  Forall (λ l, INCLUDE_RE_match l = None) pre →
  Forall (λ t, is_Some (INCLUDE_RE_match t)) ts → ts ≠ [] →
  (∀ l, rest !! 0 = Some l → INCLUDE_RE_match l = None ∧ blank l = false) →
  find_include_block (pre ++ ts ++ [Py.LF] ++ rest)
  = Some (length pre, length pre + length ts + 1, records (length pre) ts).
Proof.
  intros Hpre Hts Hne Hrest. unfold find_include_block.
  rewrite find_start_skip by done. cbn [Nat.add].
  destruct ts as [|t ts]; [done|].
  inversion Hts as [|? ? [tg Ht] Hts']; subst.
  cbn [app find_start]. rewrite Ht.
  rewrite drop_app_length.
  rewrite (scan_block_includes (t :: ts) (Py.LF :: rest)) by done.
  cbn [scan_block app].
  change (INCLUDE_RE_match Py.LF) with (@None string).
  change (blank Py.LF) with true. cbn iota.
  rewrite scan_block_stop by done.
  do 3 f_equal. lia.
Qed.

(** ** Running twice *)

Section Rebuilt.

Variables (lines : list string) (start end_ : nat)
          (block : list IncludeLine) (keep : gset string).
Hypothesis Hlf : Forall lf_line lines.
Hypothesis Hblock : find_include_block lines = Some (start, end_, block).

Local Abbreviation K := (first_kept keep (text <$> block)).
Local Abbreviation e1 := (start + length K + 1).
Hypothesis HK : K ≠ [].

Lemma kept_in_block t : t ∈ K → ∃ inc, inc ∈ block ∧ text inc = t.
Proof.
  intros [_ Ht]%first_kept_elem.
  apply list_elem_of_fmap in Ht as (inc & -> & Hin). by exists inc.
Qed.

Lemma kept_lf : Forall lf_line K.
Proof.
  apply Forall_forall. intros t (inc & Hin & <-)%kept_in_block.
  rewrite Forall_forall in Hlf. apply Hlf.
  by eapply block_texts_in_lines.
Qed.

Lemma kept_with_newline : with_newline <$> K = K.
Proof.
  rewrite <- (list_fmap_id K) at 2. apply Forall_fmap_ext.
  eapply Forall_impl; [apply kept_lf|]. intros t Ht. by apply lf_line_with_newline.
Qed.

Lemma kept_match : Forall (λ t, is_Some (INCLUDE_RE_match t)) K.
Proof.
  apply Forall_forall. intros t (inc & Hin & <-)%kept_in_block.
  apply find_include_block_inv in Hblock as (_ & _ & _ & Hb).
  destruct (Hb inc Hin) as (_ & _ & Hm). rewrite Hm. by eexists.
Qed.

Lemma kept_NoDup : NoDup K.
Proof. rewrite <- kept_texts_first_kept. apply kept_texts_NoDup. Qed.

Lemma after_block l :
  drop end_ lines !! 0 = Some l → INCLUDE_RE_match l = None ∧ blank l = false.
Proof.
  rewrite lookup_drop, Nat.add_0_r.
  apply find_include_block_inv in Hblock as (_ & _ & Hstop & _). apply Hstop.
Qed.

Lemma start_length : length (take start lines) = start.
Proof.
  apply find_include_block_inv in Hblock as (_ & Hlen & _).
  rewrite length_take. lia.
Qed.

(** The rewritten file: the lines before the block, the kept includes,
    one line feed, the lines after the block. *)
Lemma rebuilt_shape :
  rebuild_file lines start end_ block keep
  = take start lines ++ K ++ [Py.LF] ++ drop end_ lines.
Proof.
  rewrite rebuild_file_eq, kept_with_newline.
  assert (E : separator lines end_ K = [Py.LF]).
  { apply separator_cond. split; [done|].
    destruct (lines !! end_) as [l|] eqn:El.
    - right. exists l. split; [done|].
      apply find_include_block_inv in Hblock as (_ & _ & Hstop & _).
      by apply Hstop.
    - left. by apply lookup_ge_None. }
  by rewrite E, <- app_assoc.
Qed.

Lemma rebuilt_lf : Forall lf_line (rebuild_file lines start end_ block keep).
Proof.
  apply rebuild_file_Forall; [done|apply lf_line_LF| |].
  - intros t Ht. by rewrite lf_line_with_newline.
  - by eapply block_texts_in_lines.
Qed.

Lemma rebuilt_block :
  find_include_block (rebuild_file lines start end_ block keep)
  = Some (start, e1, records start K).
Proof.
  rewrite rebuilt_shape.
  rewrite find_include_block_normal.
  - by rewrite start_length.
  - by apply find_include_block_inv in Hblock as (? & _).
  - apply kept_match.
  - done.
  - apply after_block.
Qed.

(** Keeping every include of the rewritten file gives the same file. *)
Lemma rebuilt_fixpoint :
  rebuild_file (rebuild_file lines start end_ block keep) start e1
    (records start K) (list_to_set K)
  = rebuild_file lines start end_ block keep.
Proof.
  rewrite (rebuild_file_eq (rebuild_file _ _ _ _ _)).
  rewrite records_text.
  assert (E1 : first_kept (list_to_set K) K = K).
  { rewrite <- (records_text start K) at 2 3.
    rewrite <- kept_texts_first_kept. apply kept_texts_all.
    - rewrite records_text. apply kept_NoDup.
    - rewrite records_text. intros t Ht. split; [|set_solver].
      by apply elem_of_list_to_set. }
  rewrite E1, kept_with_newline, rebuilt_shape.
  assert (E2 : take start (take start lines ++ K ++ [Py.LF] ++ drop end_ lines)
               = take start lines).
  { rewrite <- start_length at 1. apply take_app_length. }
  assert (E3 : drop e1 (take start lines ++ K ++ [Py.LF] ++ drop end_ lines)
               = drop end_ lines).
  { rewrite !app_assoc. apply drop_app_length'.
    rewrite !length_app, start_length. cbn. lia. }
  assert (E4 : separator (take start lines ++ K ++ [Py.LF] ++ drop end_ lines)
                 e1 K = [Py.LF]).
  { apply separator_cond. split; [done|].
    assert (L : (take start lines ++ K ++ [Py.LF] ++ drop end_ lines) !! e1
                = drop end_ lines !! 0).
    { rewrite <- (Nat.add_0_r e1), <- lookup_drop. by rewrite E3. }
    destruct (drop end_ lines !! 0) as [l|] eqn:El.
    - right. exists l. split; [done|]. by apply after_block.
    - left. by apply lookup_ge_None. }
  by rewrite E2, E3, E4, <- app_assoc.
Qed.

End Rebuilt.

(** A second run on a file in which every include is needed again: the
    candidate is the file itself and nothing is written. *)
Lemma process_file_all_needed (cc : toolchain) path args includes cflags w1 t1
    lines start end_ block keep :
  let v := verdict cc (arg_compiler args) (cflags ++ includes) in
  let K := first_kept keep (text <$> block) in
  let nl := rebuild_file lines start end_ block keep in
  arg_fix args = true →
  starts cc (arg_compiler args) (cflags ++ includes) →
  Forall lf_line lines →
  find_include_block lines = Some (start, end_, block) →
  K ≠ [] →
  disk w1 !! path = Some t1 →
  splitlines true (universal_newlines t1) = nl →
  v (Py.join nl) = true →
  (∀ inc, inc ∈ records start K → v (Py.join (delete (idx inc) nl)) = false) →
  ∃ w2, process_file cc path args includes cflags w1 = (Ok true, w2)
        ∧ written w2 = written w1 ∧ disk w2 = disk w1
        ∧ (if arg_verbose args
           then last (console_out w2) = Some (msg_noop path)
           else console_out w2 = console_out w1).
Proof.
  intros v K nl Hfix Hs Hlf Hb HK Hd Hl1 Hv Hall.
  pose proof (rebuilt_block lines start end_ block keep Hlf Hb HK) as Hb1.
  fold K nl in Hb1.
  pose proof (rebuilt_fixpoint lines start end_ block keep Hlf Hb HK) as Hfp.
  fold K nl in Hfp.
  set (e1 := start + length K + 1) in *.
  set (B1 := records start K) in *.
  assert (Hn1 : needed_texts v nl B1 = list_to_set K).
  { apply set_eq. intros x. rewrite needed_texts_elem, elem_of_list_to_set.
    split.
    - intros (inc & Hin & <- & _). rewrite <- (records_text start K).
      apply list_elem_of_fmap. by exists inc.
    - intros Hx. rewrite <- (records_text start K) in Hx.
      apply list_elem_of_fmap in Hx as (inc & -> & Hin).
      exists inc. split; [done|]. split; [done|]. by apply Hall. }
  assert (Hc0 : candidate v nl start e1 B1 0 = Py.join nl).
  { by rewrite candidate_0, Hn1, Hfp. }
  rewrite <- Hl1 in Hb1, Hv.
  destruct (process_file_fix_cases cc path args includes cflags w1 t1
              start e1 B1 Hfix Hs Hd Hb1 Hv) as (r2 & w2 & E & Ho).
  rewrite Hl1 in Ho, Hv. fold v in Ho.
  inversion Ho as [w0 Hf _ _ _ _ _|k w0 keep2 nl2 Hk Hf Hc I T Hw]; subst.
  - specialize (Hf 0 ltac:(lia)). congruence.
  - destruct k as [|k].
    2:{ specialize (Hf 0 ltac:(lia)). congruence. }
    subst nl2 keep2. rewrite restored_0, Hn1, Hfp in Hw.
    rewrite bool_decide_eq_false_2 in Hw by (intros H; by apply H).
    destruct Hw as (D & W & C). by exists w2.
Qed.

(** C8, as amended: take a file whose lines all end with a line feed and
    in which at least one include is needed. When a run in rewrite mode
    succeeds on it, and in the file it leaves every include of the block is
    needed again, a second run writes nothing, leaves the file as it is and
    reports no edit: the no-op line in verbose mode, nothing otherwise. *)
Theorem second_run_noop (cc : toolchain) (path : string) (args : Args)
    (includes cflags : list string) (w w1 : world) (t : string)
    (start end_ : nat) (block : list IncludeLine) :
  let v := verdict cc (arg_compiler args) (cflags ++ includes) in
  let lines := splitlines true (universal_newlines t) in
  arg_fix args = true →
  starts cc (arg_compiler args) (cflags ++ includes) →
  disk w !! path = Some t →
  Forall lf_line lines →
  find_include_block lines = Some (start, end_, block) →
  needed_texts v lines block ≠ ∅ →
  process_file cc path args includes cflags w = (Ok true, w1) →
  (∀ t1 s e b,
     disk w1 !! path = Some t1 →
     find_include_block (splitlines true (universal_newlines t1))
       = Some (s, e, b) →
     ∀ inc, inc ∈ b →
       v (Py.join (delete (idx inc)
                     (splitlines true (universal_newlines t1)))) = false) →
  ∃ w2, process_file cc path args includes cflags w1 = (Ok true, w2)
        ∧ written w2 = written w1 ∧ disk w2 = disk w1
        ∧ (if arg_verbose args
           then last (console_out w2) = Some (msg_noop path)
           else console_out w2 = console_out w1).
Proof.
  intros v lines Hfix Hs Hd Hlf Hb Hne Hrun Hall.
  destruct (v (Py.join lines)) eqn:Hv.
  2:{ destruct (process_file_baseline_fails cc path args includes cflags w t
                  start end_ block Hs Hd Hb Hv) as (w' & E & _).
      rewrite E in Hrun. discriminate. }
  destruct (process_file_fix_cases cc path args includes cflags w t
              start end_ block Hfix Hs Hd Hb Hv) as (r & w' & E & Ho).
  rewrite E in Hrun. injection Hrun as -> ->. fold v lines in Ho.
  inversion Ho as [|k w0 keep nl Hk Hf Hc I T Hw]; subst.
  assert (HK : first_kept keep (text <$> block) ≠ []).
  { apply set_choose_L in Hne as [x Hx]. intros HK.
    assert (Hin : x ∈ first_kept keep (text <$> block)).
    { apply first_kept_elem. split.
      - unfold keep, restored. set_solver.
      - apply needed_texts_elem in Hx as (inc & Hin & <- & _).
        apply list_elem_of_fmap. by exists inc. }
    rewrite HK in Hin. by apply elem_of_nil in Hin. }
  assert (Ht1 : ∃ t1, disk w1 !! path = Some t1
                      ∧ splitlines true (universal_newlines t1) = nl).
  { case_bool_decide as Hneq.
    - destruct Hw as (D & _). exists (Py.join nl). split.
      + rewrite D. apply lookup_insert_eq.
      + unfold nl, lines.
        rewrite (rebuilt_reads_back t start end_ block keep Hb).
        apply splitlines_join. by apply rebuilt_lf.
    - destruct Hw as (D & _). exists t. split; [by rewrite D|].
      by rewrite Hneq. }
  destruct Ht1 as (t1 & Hd1 & Hl1).
  apply (process_file_all_needed cc path args includes cflags w1 t1 lines
           start end_ block keep); try done.
  intros inc Hin. fold nl. rewrite <- Hl1. eapply Hall; [done| |done].
  rewrite Hl1. by apply rebuilt_block.
Qed.

(** C8, witness: [a.h] is needed and [b.h] is not; the first run drops
    [b.h], the second finds [a.h] needed again and writes nothing. *)
Lemma second_run_noop_witness :
  ∃ w1 w2,
    process_file cc_needs_a "a.c" (sample_args true true) [] []
      (one_file "a.c" (inc_a +:+ inc_b +:+ code_x)) = (Ok true, w1)
    ∧ disk w1 !! "a.c" = Some (inc_a +:+ Py.LF +:+ code_x)
    ∧ process_file cc_needs_a "a.c" (sample_args true true) [] [] w1
      = (Ok true, w2)
    ∧ written w2 = written w1
    ∧ last (console_out w2) = Some (msg_noop "a.c").
Proof.
  assert (H1 : ∃ w1,
    process_file cc_needs_a "a.c" (sample_args true true) [] []
      (one_file "a.c" (inc_a +:+ inc_b +:+ code_x)) = (Ok true, w1)
    ∧ disk w1 !! "a.c" = Some (inc_a +:+ Py.LF +:+ code_x)).
  { eexists. split; vm_compute; reflexivity. }
  destruct H1 as (w1 & E1 & Hd1).
  destruct (second_run_noop cc_needs_a "a.c" (sample_args true true) [] []
              (one_file "a.c" (inc_a +:+ inc_b +:+ code_x)) w1
              (inc_a +:+ inc_b +:+ code_x) 0 2
              [mkIncludeLine 0 inc_a "a.h"; mkIncludeLine 1 inc_b "b.h"])
    as (w2 & E2 & W & D & C).
  - reflexivity.
  - intros t. by eexists.
  - reflexivity.
  - change (Forall lf_line [inc_a; inc_b; code_x]).
    apply Forall_cons_2; [exists "#include <a.h>"; split; reflexivity|].
    apply Forall_cons_2; [exists "#include <b.h>"; split; reflexivity|].
    apply Forall_cons_2; [exists "int x;"; split; reflexivity|].
    apply Forall_nil_2.
  - reflexivity.
  - intros H. apply (f_equal (λ X : gset string, bool_decide (inc_a ∈ X))) in H.
    by vm_compute in H.
  - exact E1.
  - intros t1 s e b Ht1. rewrite Hd1 in Ht1. injection Ht1 as <-.
    intros Hb inc Hin. vm_compute in Hb. injection Hb as <- <- <-.
    apply list_elem_of_singleton in Hin as ->. by vm_compute.
  - exists w1, w2. by repeat split.
Defined.

(** C8, counterexample: [b.h] needs [a.h] before it and the code needs
    neither. The first run finds [a.h] needed, because [b.h] is still
    there, and drops [b.h]; on the file it leaves, [a.h] is needed no more
    and the second run writes again. *)
Lemma second_run_writes :
  ¬ second_run_writes_nothing cc_order "a.c" (sample_args true false) [] []
      (one_file "a.c" (inc_a +:+ inc_b +:+ code_x)).
Proof.
  intros H.
  assert (H1 : ∃ w1,
    process_file cc_order "a.c" (sample_args true false) [] []
      (one_file "a.c" (inc_a +:+ inc_b +:+ code_x)) = (Ok true, w1)
    ∧ ∃ r2 w2,
        process_file cc_order "a.c" (sample_args true false) [] [] w1
        = (r2, w2)
        ∧ written w2 ≠ written w1).
  { eexists. split; [vm_compute; reflexivity|].
    eexists _, _. split; [vm_compute; reflexivity|].
    vm_compute. discriminate. }
  destruct H1 as (w1 & E1 & r2 & w2 & E2 & Hne).
  apply Hne. exact (H w1 r2 w2 E1 E2).
Qed.
(** * Further properties *)

(** ** The include pattern *)

Lemma lstrip_split s :
  ∃ ws, s = ws +:+ Py.lstrip s ∧ string_forallb Py.is_space ws = true.
Proof.
  induction s as [|c r (ws & E & H)].
  - by exists EmptyString.
  - cbn [Py.lstrip]. destruct (Py.is_space c) eqn:Ec.
    + exists (String c ws). cbn. rewrite Ec, H. split; [by f_equal|done].
    + by exists EmptyString.
Qed.

Lemma lstrip_spaces ws s :
  string_forallb Py.is_space ws = true → Py.lstrip (ws +:+ s) = Py.lstrip s.
Proof.
  induction ws as [|c r IH]; [done|]. cbn. intros [Hc Hr]%andb_true_iff.
  rewrite Hc. by apply IH.
Qed.

Lemma lstrip_head c s : Py.is_space c = false → Py.lstrip (String c s) = String c s.
Proof. intros H. cbn. by rewrite H. Qed.

Lemma strip_prefix_Some p s r : Py.strip_prefix p s = Some r → s = p +:+ r.
Proof.
  revert s. induction p as [|a p IH]; intros [|b s] H; cbn in *; try done.
  - by injection H as <-.
  - by injection H as <-.
  - destruct (Ascii.eqb a b) eqn:E; [|done].
    apply Ascii.eqb_eq in E as ->. f_equal. by apply IH.
Qed.

Lemma strip_prefix_app p r : Py.strip_prefix p (p +:+ r) = Some r.
Proof.
  induction p as [|a p IH]; cbn; [by destruct r|].
  by rewrite Ascii.eqb_refl.
Qed.

Lemma span_target_split s a b :
  span_target s = (a, b) →
  s = a +:+ b
  ∧ string_forallb (λ c, negb (is_close_delim c)) a = true
  ∧ match b with String c _ => is_close_delim c = true | EmptyString => True end.
Proof.
  revert a b. induction s as [|c r IH]; intros a b H; cbn in H.
  - by injection H as <- <-.
  - destruct (is_close_delim c) eqn:Ec.
    + injection H as <- <-. by rewrite Ec.
    + destruct (span_target r) as [t rest]. injection H as <- <-.
      destruct (IH t rest eq_refl) as (-> & Ht & Hb).
      cbn. rewrite Ec, Ht. done.
Qed.

Lemma span_target_app tg c post :
  string_forallb (λ a, negb (is_close_delim a)) tg = true →
  is_close_delim c = true →
  span_target (tg +:+ String c post) = (tg, String c post).
Proof.
  intros Htg Hc. induction tg as [|a t IH]; cbn.
  - by rewrite Hc.
  - cbn in Htg. apply andb_true_iff in Htg as [Ha Ht].
    apply negb_true_iff in Ha. rewrite Ha, (IH Ht). done.
Qed.

Lemma open_delim_not_space q : is_open_delim q = true → Py.is_space q = false.
Proof.
  unfold is_open_delim. intros [H|H]%orb_true_iff;
    apply Ascii.eqb_eq in H as ->; reflexivity.
Qed.

Lemma include_shape_sound line tg :
  INCLUDE_RE_match line = Some tg → include_shape line tg.
Proof.
  unfold INCLUDE_RE_match. intros H.
    destruct (lstrip_split line) as (ws1 & E1 & H1).
    destruct (Py.strip_prefix "#" (Py.lstrip line)) as [r1|] eqn:P1; [|done].
    apply strip_prefix_Some in P1. cbn [mbind option_bind] in H.
    destruct (lstrip_split r1) as (ws2 & E2 & H2).
    destruct (Py.strip_prefix "include" (Py.lstrip r1)) as [r2|] eqn:P2; [|done].
    apply strip_prefix_Some in P2. cbn [mbind option_bind] in H.
    destruct (lstrip_split r2) as (ws3 & E3 & H3).
    destruct (Py.lstrip r2) as [|q r3] eqn:L3; [done|].
    destruct (is_open_delim q) eqn:Hq; [|done].
    destruct (span_target r3) as [a b] eqn:Sp.
    apply span_target_split in Sp as (-> & Ha & Hb).
    destruct a as [|c0 t]; [done|]. destruct b as [|c post]; [done|].
    injection H as <-.
    exists ws1, ws2, ws3, q, c, post.
    split; [|done].
    by rewrite E1, P1, E2, P2, E3.
Qed.

(** X1: [INCLUDE_RE.match] succeeds with target [tg] exactly on the lines
    made of white space, [#], white space, [include], white space, an
    opening [<] or double quote, the non-empty target without [>] and double
    quote, a closing [>] or double quote, and any text after it. *)
Theorem INCLUDE_RE_match_shape (line tg : string) :
  INCLUDE_RE_match line = Some tg ↔ include_shape line tg.
Proof.
  split; [apply include_shape_sound|].
  intros (ws1 & ws2 & ws3 & q & c & post & -> & H1 & H2 & H3 & Hq & Hc & Hne & Htg).
  unfold INCLUDE_RE_match.
  rewrite (lstrip_spaces ws1 _ H1).
  assert (Hh : ∀ x, Py.lstrip ("#" +:+ x) = "#" +:+ x) by done.
  rewrite Hh, strip_prefix_app. cbn [mbind option_bind].
  rewrite (lstrip_spaces ws2 _ H2).
  assert (Hi : ∀ x, Py.lstrip ("include" +:+ x) = "include" +:+ x) by done.
  rewrite Hi, strip_prefix_app. cbn [mbind option_bind].
  rewrite (lstrip_spaces ws3 _ H3), (lstrip_head q) by by apply open_delim_not_space.
  rewrite Hq, (span_target_app tg c post Htg Hc).
  by destruct tg.
Qed.

Lemma string_forallb_app p a b :
  string_forallb p (a +:+ b) = string_forallb p a && string_forallb p b.
Proof. induction a as [|c r IH]; cbn; [done|]. by rewrite IH, andb_assoc. Qed.

Lemma string_forallb_rev_app p a b :
  string_forallb p (String.rev_app a b) = string_forallb p a && string_forallb p b.
Proof.
  revert b. induction a as [|c r IH]; intros b; [done|].
  cbn [String.rev_app string_forallb]. rewrite IH. cbn [string_forallb].
  by rewrite andb_assoc, (andb_comm (p c)).
Qed.

Lemma string_forallb_rev p s : string_forallb p (String.rev s) = string_forallb p s.
Proof. unfold String.rev. rewrite string_forallb_rev_app. apply andb_true_r. Qed.

Lemma lstrip_empty s :
  Py.lstrip s = EmptyString → string_forallb Py.is_space s = true.
Proof.
  induction s as [|c r IH]; cbn; [done|].
  destruct (Py.is_space c); [done|discriminate].
Qed.

Lemma rev_app_empty a b :
  String.rev_app a b = EmptyString → a = EmptyString ∧ b = EmptyString.
Proof.
  revert b. induction a as [|c r IH]; intros b H; [done|].
  cbn in H. by apply IH in H as [_ ?].
Qed.

Lemma rev_empty s : String.rev s = EmptyString → s = EmptyString.
Proof. intros H. by apply rev_app_empty in H as [? _]. Qed.

Lemma blank_spaces l : blank l = true → string_forallb Py.is_space l = true.
Proof.
  unfold blank, Py.strip, Py.rstrip. intros H.
  destruct (lstrip_split l) as (ws & E & Hws).
  assert (Hr : String.rev (Py.lstrip (String.rev (Py.lstrip l))) = EmptyString).
  { by destruct (String.rev _). }
  apply rev_empty, lstrip_empty in Hr. rewrite string_forallb_rev in Hr.
  by rewrite E, string_forallb_app, Hws, Hr.
Qed.

(** X2: a line that matches the include pattern is never blank, so a line
    of the block is an include or a blank line and never both. *)
Theorem include_not_blank (line tg : string) :
  INCLUDE_RE_match line = Some tg → blank line = false.
Proof.
  intros H. destruct (blank line) eqn:B; [|done].
  apply blank_spaces in B.
  apply include_shape_sound in H
    as (ws1 & ws2 & ws3 & q & c & post & -> & _).
  rewrite string_forallb_app in B. apply andb_true_iff in B as [_ B].
  discriminate.
Qed.

(** X2, witness. *)
Lemma include_not_blank_witness : blank inc_a = false.
Proof. exact (include_not_blank inc_a "a.h" eq_refl). Defined.

(** ** The include block, in full *)

Lemma find_start_no_match lines i :
  Forall (λ l, INCLUDE_RE_match l = None) lines → find_start lines i = None.
Proof.
  intros H. revert i. induction H as [|l rest Hl _ IH]; intros i; [done|].
  cbn [find_start]. by rewrite Hl.
Qed.

(** X3: [find_include_block] returns [None] exactly when no line of the
    file matches the include pattern. *)
Theorem find_include_block_None_iff (lines : list string) :
  find_include_block lines = None
  ↔ Forall (λ l, INCLUDE_RE_match l = None) lines.
Proof.
  split.
  - unfold find_include_block. destruct (find_start lines 0) eqn:E.
    + by destruct (scan_block _ _ _).
    + intros _. by eapply find_start_None.
  - intros H. unfold find_include_block. by rewrite find_start_no_match.
Qed.

Lemma include_records_cons e l ls :
  include_records e (l :: ls)
  = match INCLUDE_RE_match l with
    | Some tg => [mkIncludeLine e l tg]
    | None => []
    end ++ include_records (S e) ls.
Proof.
  unfold include_records. rewrite imap_cons. cbn [omap list_omap].
  rewrite Nat.add_0_r.
  rewrite (omap_imap_ext _ (λ i l0, mkIncludeLine (S e + i) l0 <$> INCLUDE_RE_match l0)).
  - by destruct (INCLUDE_RE_match l).
  - intros i t. cbn. by rewrite Nat.add_succ_r.
Qed.

Lemma scan_block_span rest e acc e' incs :
  scan_block rest e acc = (e', incs) →
  ∃ n, e' = e + n ∧ n ≤ length rest
       ∧ Forall (λ l, is_Some (INCLUDE_RE_match l) ∨ blank l = true) (take n rest)
       ∧ incs = acc ++ include_records e (take n rest).
Proof.
  revert e acc. induction rest as [|l rest IH]; intros e acc H.
  - injection H as <- <-. exists 0. rewrite app_nil_r.
    repeat split; try done; try lia; try constructor.
  - cbn [scan_block] in H. destruct (INCLUDE_RE_match l) as [tg|] eqn:E.
    + apply IH in H as (n & -> & Hn & Hf & ->).
      exists (S n). split; [lia|]. split; [cbn; lia|]. split.
      * cbn [take]. constructor; [|done]. left. rewrite E. by eexists.
      * cbn [take]. rewrite include_records_cons, E. by rewrite <- app_assoc.
    + destruct (blank l) eqn:B.
      * apply IH in H as (n & -> & Hn & Hf & ->).
        exists (S n). split; [lia|]. split; [cbn; lia|]. split.
        -- cbn [take]. constructor; [|done]. by right.
        -- cbn [take]. by rewrite include_records_cons, E.
      * injection H as <- <-. exists 0. rewrite app_nil_r.
        repeat split; try done; try lia; try constructor.
Qed.

Lemma find_include_block_scan lines start end_ block :
  find_include_block lines = Some (start, end_, block) →
  Forall (λ l, is_Some (INCLUDE_RE_match l) ∨ blank l = true)
    (take (end_ - start) (drop start lines))
  ∧ block = include_records start (take (end_ - start) (drop start lines)).
Proof.
  unfold find_include_block. intros H.
  destruct (find_start lines 0) as [s|] eqn:Hs; [|done].
  destruct (scan_block (drop s lines) s []) as [e incs] eqn:Hsc.
  injection H as -> -> ->.
  apply scan_block_span in Hsc as (n & -> & _ & Hf & ->).
  by replace (start + n - start) with n by lia.
Qed.

(** X4: the block [find_include_block] returns is the longest run of
    include and blank lines that starts at the first include of the file:
    no line before [start] is an include, the line at [start] is one, every
    line from [start] up to [end] is an include or blank, and the line at
    [end], when the file has one, is neither. *)
Theorem find_include_block_span (lines : list string) (start end_ : nat)
    (block : list IncludeLine) :
  find_include_block lines = Some (start, end_, block) →
  start < end_ ≤ length lines
  ∧ Forall (λ l, INCLUDE_RE_match l = None) (take start lines)
  ∧ (∃ l, lines !! start = Some l ∧ is_Some (INCLUDE_RE_match l))
  ∧ Forall (λ l, is_Some (INCLUDE_RE_match l) ∨ blank l = true)
      (take (end_ - start) (drop start lines))
  ∧ (∀ l, lines !! end_ = Some l → INCLUDE_RE_match l = None ∧ blank l = false).
Proof.
  intros H.
  destruct (find_include_block_inv _ _ _ _ H) as (Hpre & Hlen & Hstop & _).
  destruct (find_include_block_scan _ _ _ _ H) as (Hspan & _).
  split; [done|]. split; [done|]. split; [|done].
  unfold find_include_block in H.
  destruct (find_start lines 0) as [s|] eqn:Hs; [|done].
  destruct (scan_block (drop s lines) s []) as [e incs].
  injection H as -> -> ->.
  apply find_start_Some in Hs as (n & -> & _ & Hl). by cbn.
Qed.

(** X4, witness: a comment, two includes around a blank line, then code. *)
Lemma find_include_block_span_witness :
  let lines := ["// x" +:+ Py.LF; inc_a; Py.LF; inc_b; code_x] in
  1 < 4 ≤ length lines
  ∧ Forall (λ l, INCLUDE_RE_match l = None) (take 1 lines)
  ∧ (∃ l, lines !! 1 = Some l ∧ is_Some (INCLUDE_RE_match l))
  ∧ Forall (λ l, is_Some (INCLUDE_RE_match l) ∨ blank l = true)
      (take (4 - 1) (drop 1 lines))
  ∧ (∀ l, lines !! 4 = Some l → INCLUDE_RE_match l = None ∧ blank l = false).
Proof.
  exact (find_include_block_span
           ["// x" +:+ Py.LF; inc_a; Py.LF; inc_b; code_x] 1 4
           [mkIncludeLine 1 inc_a "a.h"; mkIncludeLine 3 inc_b "b.h"] eq_refl).
Defined.

Lemma include_records_elem e ls inc :
  inc ∈ include_records e ls
  ↔ ∃ i, ls !! i = Some (text inc) ∧ idx inc = e + i
         ∧ INCLUDE_RE_match (text inc) = Some (target inc).
Proof.
  revert e. induction ls as [|l ls IH]; intros e.
  - split; [by intros ?%elem_of_nil|]. by intros (i & ? & _).
  - rewrite include_records_cons, elem_of_app, IH. split.
    + intros [H|(i & H1 & H2 & H3)].
      * destruct (INCLUDE_RE_match l) as [tg|] eqn:E; [|by apply elem_of_nil in H].
        apply list_elem_of_singleton in H as ->. exists 0. cbn.
        split; [done|]. split; [lia|done].
      * exists (S i). cbn. split; [done|]. split; [lia|done].
    + intros ([|i] & H1 & H2 & H3).
      * left. cbn in H1. injection H1 as ->. rewrite H3.
        apply list_elem_of_singleton. destruct inc as [i0 t0 g0]. cbn in *.
        f_equal. lia.
      * right. exists i. cbn in H1. split; [done|]. split; [lia|done].
Qed.

Lemma include_records_sorted e ls :
  StronglySorted lt (idx <$> include_records e ls).
Proof.
  revert e. induction ls as [|l ls IH]; intros e; [constructor|].
  rewrite include_records_cons.
  destruct (INCLUDE_RE_match l) as [tg|]; [|apply IH].
  cbn. constructor; [apply IH|].
  apply Forall_forall. intros i (inc & -> & Hin)%list_elem_of_fmap.
  apply include_records_elem in Hin as (j & _ & -> & _). lia.
Qed.

(** X5: the records of the block are those of the include lines of the
    span, one for each and in the order of the lines: each holds the index
    of its line, the line as its text and group 2 of the match as its
    target, and every include line of the span has its record. *)
Theorem find_include_block_records (lines : list string) (start end_ : nat)
    (block : list IncludeLine) :
  find_include_block lines = Some (start, end_, block) →
  block = include_records start (take (end_ - start) (drop start lines))
  ∧ block ≠ []
  ∧ StronglySorted lt (idx <$> block)
  ∧ (∀ inc, inc ∈ block ↔
       start ≤ idx inc < end_ ∧ lines !! idx inc = Some (text inc)
       ∧ INCLUDE_RE_match (text inc) = Some (target inc)).
Proof.
  intros H.
  destruct (find_include_block_scan _ _ _ _ H) as (_ & Hb).
  destruct (find_include_block_inv _ _ _ _ H) as (_ & Hlen & _ & Hin).
  assert (Hiff : ∀ inc, inc ∈ block ↔
       start ≤ idx inc < end_ ∧ lines !! idx inc = Some (text inc)
       ∧ INCLUDE_RE_match (text inc) = Some (target inc)).
  { intros inc. split; [apply Hin|]. intros (Hi & Hl & Hm).
    rewrite Hb. apply include_records_elem. exists (idx inc - start).
    split; [|split; [lia|done]].
    rewrite lookup_take_lt by lia. rewrite lookup_drop.
    by replace (start + (idx inc - start)) with (idx inc) by lia. }
  split; [done|]. split; [|split; [|done]].
  - unfold find_include_block in H.
    destruct (find_start lines 0) as [s|] eqn:Hs; [|done].
    destruct (scan_block (drop s lines) s []) as [e incs].
    injection H as -> -> ->.
    apply find_start_Some in Hs as (n & -> & _ & l & Hl & [tg Hm]). cbn in *.
    intros Hnil.
    assert (Hx : mkIncludeLine n l tg ∈ block) by (apply Hiff; cbn; split; [lia|done]).
    rewrite Hnil in Hx. by apply elem_of_nil in Hx.
  - rewrite Hb. apply include_records_sorted.
Qed.

(** X5, witness: the blank line inside the block has no record. *)
Lemma find_include_block_records_witness :
  let lines := ["// x" +:+ Py.LF; inc_a; Py.LF; inc_b; code_x] in
  let block := [mkIncludeLine 1 inc_a "a.h"; mkIncludeLine 3 inc_b "b.h"] in
  block = include_records 1 (take (4 - 1) (drop 1 lines))
  ∧ block ≠ []
  ∧ StronglySorted lt (idx <$> block)
  ∧ (∀ inc, inc ∈ block ↔
       1 ≤ idx inc < 4 ∧ lines !! idx inc = Some (text inc)
       ∧ INCLUDE_RE_match (text inc) = Some (target inc)).
Proof.
  exact (find_include_block_records
           ["// x" +:+ Py.LF; inc_a; Py.LF; inc_b; code_x] 1 4
           [mkIncludeLine 1 inc_a "a.h"; mkIncludeLine 3 inc_b "b.h"] eq_refl).
Defined.

(** ** Files that are skipped, checked or missing *)

Lemma printed_nil w : printed w [] = w.
Proof. destruct w. unfold printed. cbn. by rewrite app_nil_r. Qed.

Lemma printed_app w a b : printed (printed w a) b = printed w (a ++ b).
Proof. unfold printed. cbn. by rewrite app_assoc. Qed.

Lemma print_printed line w : print line w = (Ok tt, printed w [line]).
Proof. done. Qed.

(** X6: a file none of whose lines matches the include pattern is left
    alone whatever the compiler is: [process_file] returns [True] without
    compiling or writing anything, and prints the skip line in verbose mode
    only. *)
Theorem process_file_skip (cc : toolchain) (path : string) (args : Args)
    (includes cflags : list string) (w : world) (t : string) :
  disk w !! path = Some t →
  Forall (λ l, INCLUDE_RE_match l = None)
    (splitlines true (universal_newlines t)) →
  process_file cc path args includes cflags w
  = (Ok true, printed w (if arg_verbose args then [msg_skip path] else [])).
Proof.
  intros Hd Hno. unfold process_file.
  rewrite bind_run, (read_text_run _ _ _ Hd).
  unfold find_include_block. rewrite (find_start_no_match _ _ Hno).
  destruct (arg_verbose args); cbn [when]; [done|].
  by rewrite printed_nil.
Qed.

(** X6, witness: a file without includes that would not compile, and no
    compiler to start. *)
Lemma process_file_skip_witness :
  process_file cc_missing "a.c" (sample_args true true) [] []
    (one_file "a.c" ("int x = ;" +:+ Py.LF))
  = (Ok true, printed (one_file "a.c" ("int x = ;" +:+ Py.LF)) [msg_skip "a.c"]).
Proof.
  apply (process_file_skip cc_missing "a.c" (sample_args true true) [] []
           (one_file "a.c" ("int x = ;" +:+ Py.LF)) ("int x = ;" +:+ Py.LF)).
  - reflexivity.
  - by repeat constructor.
Defined.

Lemma print_removable_printed removed w :
  print_removable removed w = (Ok tt, printed w (msg_removable <$> removed)).
Proof.
  revert w. induction removed as [|inc rest IH]; intros w.
  - by rewrite printed_nil.
  - cbn [print_removable]. rewrite bind_run, print_printed, IH.
    by rewrite printed_app.
Qed.

Lemma filter_complement_length {A} (P : A → Prop) `{!∀ x, Decision (P x)}
    (l : list A) :
  length (filter P l) + length (filter (λ x, ¬ P x) l) = length l.
Proof.
  induction l as [|x l IH]; [done|].
  rewrite !filter_cons. destruct (decide (P x)), (decide (¬ P x)); cbn; try lia;
    naive_solver.
Qed.

(** X7: check mode, for a file with an include block whose baseline
    compiles. [process_file] returns [True], writes nothing, runs the
    compiler once for the unchanged file and once for each include, and ends
    its output with the check line and one line for each removable include,
    in block order; the two counts of the check line add up to the number of
    includes. Nothing else is printed unless in verbose mode. *)
Theorem process_file_check_report (cc : toolchain) (path : string)
    (args : Args) (includes cflags : list string) (w : world) (t : string)
    (start end_ : nat) (block : list IncludeLine) :
  let v := verdict cc (arg_compiler args) (cflags ++ includes) in
  let lines := splitlines true (universal_newlines t) in
  let needed := needed_texts v lines block in
  let kept := filter (λ inc, text inc ∈ needed) block in
  let removed := filter (λ inc, text inc ∉ needed) block in
  arg_fix args = false →
  starts cc (arg_compiler args) (cflags ++ includes) →
  disk w !! path = Some t →
  find_include_block lines = Some (start, end_, block) →
  v (Py.join lines) = true →
  ∃ w' out,
    process_file cc path args includes cflags w = (Ok true, w')
    ∧ disk w' = disk w ∧ written w' = written w ∧ tmpdir w' = tmpdir w
    ∧ invoked w'
      = invoked w ++ Py.join lines
          :: ((λ inc, Py.join (delete (idx inc) lines)) <$> block)
    ∧ console_out w'
      = console_out w ++ out
        ++ msg_check path (length kept) (length removed)
           :: (msg_removable <$> removed)
    ∧ (arg_verbose args = false → out = [])
    ∧ length kept + length removed = length block.
Proof.
  intros v lines needed kept removed Hfix Hs Hd Hb Hv. unfold process_file.
  rewrite bind_run, (read_text_run _ _ _ Hd). fold lines. rewrite Hb, bind_run.
  destruct (determine_needed_runs cc path block lines (arg_compiler args)
              includes cflags (arg_verbose args) w Hs) as (w1 & E1 & R1).
  fold v in E1, R1. rewrite E1. rewrite Hv in R1 |- *. cbn [negb]. rewrite Hfix.
  destruct R1 as [D T I W S [out O] Q].
  fold needed. fold kept removed.
  rewrite bind_run, print_printed, bind_run, print_removable_printed.
  rewrite printed_app.
  eexists _, out. split; [reflexivity|].
  cbn [printed disk tmpdir console_out console_err invoked written].
  split; [done|]. split; [done|]. split; [done|]. split; [done|].
  split; [by rewrite O, <- app_assoc|]. split.
  - intros Hq. destruct (Q Hq) as [Hc _]. rewrite Hc in O.
    rewrite <- (app_nil_r (console_out w)) in O at 1.
    by apply app_inv_head in O.
  - apply (filter_complement_length (λ inc, text inc ∈ needed)).
Qed.

(** X7, witness: of the two includes the compiler needs the first only. *)
Lemma process_file_check_report_witness :
  ∃ w',
    process_file cc_needs_a "a.c" (sample_args false false) [] []
      (one_file "a.c" (inc_a +:+ inc_b +:+ code_x)) = (Ok true, w')
    ∧ written w' = []
    ∧ length (invoked w') = 3
    ∧ console_out w' = [msg_check "a.c" 1 1; "    removable: #include <b.h>"].
Proof.
  destruct (process_file_check_report cc_needs_a "a.c" (sample_args false false)
              [] [] (one_file "a.c" (inc_a +:+ inc_b +:+ code_x))
              (inc_a +:+ inc_b +:+ code_x) 0 2
              [mkIncludeLine 0 inc_a "a.h"; mkIncludeLine 1 inc_b "b.h"])
    as (w' & out & E & _ & W & _ & I & C & Q & _).
  - reflexivity.
  - intros t. by eexists.
  - reflexivity.
  - reflexivity.
  - reflexivity.
  - exists w'. split; [done|]. split; [done|]. split; [by rewrite I|].
    rewrite C, (Q eq_refl). reflexivity.
Defined.

(** ** The driver's edges *)

Lemma read_text_world path w r w' : read_text path w = (r, w') → w' = w.
Proof.
  unfold read_text. destruct (disk w !! path); [by intros [= _ <-]|].
  destruct (special w !! path) as [[t|e b]|]; by intros [= _ <-].
Qed.

Lemma parse_make_vars_world makefile w r w' :
  parse_make_vars makefile w = (r, w') → w' = w.
Proof.
  unfold parse_make_vars. destruct (exists_ makefile w); cbn [negb];
    [|by intros [= _ <-]].
  rewrite bind_run. destruct (read_text makefile w) as [[c|e] w1] eqn:E;
    apply read_text_world in E as ->; cbv beta zeta; unfold mret, M_ret;
    congruence.
Qed.

Lemma makefile_flags_world resolve makefile w r w' :
  makefile_flags resolve makefile w = (r, w') → w' = w.
Proof.
  unfold makefile_flags. rewrite bind_run.
  destruct (parse_make_vars makefile w) as [[vars|e] w1] eqn:E;
    apply parse_make_vars_world in E as ->; [|by intros [= _ <-]].
  rewrite bind_run. unfold shlex_split at 1.
  destruct (shlex_go (default EmptyString (vars !! "INCLUDES")) _ _ _ _) as [toks|].
  - cbn [mret M_ret]. rewrite bind_run. unfold shlex_split.
    destruct (shlex_go (default EmptyString (vars !! "CFLAGS")) _ _ _ _) as [cf|];
      by intros [= _ <-].
  - by intros [= _ <-].
Qed.

(** X8: a Makefile that does not exist gives no include flag and no
    compiler flag; one that exists and cannot be read makes
    [makefile_flags] end with the exception of the read, since nothing
    catches it. The world is as it was in both cases. *)
Theorem makefile_flags_missing (resolve : string → string) (makefile : string)
    (w : world) :
  disk w !! makefile = None →
  match special w !! makefile with
  | None => makefile_flags resolve makefile w = (Ok ([], []), w)
  | Some (Unreadable e _) => makefile_flags resolve makefile w = (Raise e, w)
  | Some (ReadOnly _) => True
  end.
Proof.
  intros Hd. unfold makefile_flags, parse_make_vars, exists_.
  rewrite bind_run.
  destruct (special w !! makefile) as [[t|e b]|] eqn:Hs; [done| |].
  - rewrite bool_decide_eq_true_2 by (right; by eexists). cbn [negb].
    rewrite bind_run. unfold read_text. by rewrite Hd, Hs.
  - rewrite bool_decide_eq_false_2.
    + cbn [negb]. by rewrite bind_run, lookup_empty.
    + rewrite Hd. intros [[? H]|[? H]]; congruence.
Qed.

(** X8, witness: no Makefile at all, and a Makefile that is a directory. *)
Lemma makefile_flags_missing_witness :
  makefile_flags id "Makefile" empty_world = (Ok ([], []), empty_world)
  ∧ let w := mkWorld ∅ ∅ [] [] [] [] {[ "Makefile" := Unreadable OSError false ]} in
    makefile_flags id "Makefile" w = (Raise OSError, w).
Proof.
  split.
  - exact (makefile_flags_missing id "Makefile" empty_world eq_refl).
  - exact (makefile_flags_missing id "Makefile"
             (mkWorld ∅ ∅ [] [] [] []
                {[ "Makefile" := Unreadable OSError false ]}) eq_refl).
Defined.

(** X9: when no file is named and the walk of the source directory finds
    none, [main] prints that no C file was found under that directory and
    exits with 1; nothing is compiled or written. *)
Theorem main_no_files (cc : toolchain) (resolve : string → string)
    (rglob_c : gmap string string → string → list string) (args : Args)
    (w : world) (flags : list string * list string) :
  makefile_flags resolve (pathlib.Path (arg_makefile args)) w = (Ok flags, w) →
  arg_file args = None ∨ arg_file args = Some [] →
  rglob_c (disk w) (arg_src_dir args) = [] →
  main cc resolve rglob_c args w
  = (Ok 1%Z, printed w [msg_no_files (arg_src_dir args)]).
Proof.
  intros Hmf Hfile Hwalk. unfold main. rewrite bind_run, Hmf.
  destruct flags as [mi mc]. cbv beta iota. rewrite bind_run.
  assert (E : collect_files rglob_c (arg_src_dir args) (arg_file args) w = (Ok [], w)).
  { unfold collect_files. rewrite Hwalk. by destruct Hfile as [-> | ->]. }
  by rewrite E.
Qed.

(** X9, witness: no Makefile, no source. *)
Lemma main_no_files_witness :
  main cc_accept id (λ _ _, []) (sample_args true false) empty_world
  = (Ok 1%Z, printed empty_world ["No .c files found under src"]).
Proof.
  apply (main_no_files cc_accept id (λ _ _, []) (sample_args true false)
           empty_world ([], [])).
  - reflexivity.
  - by left.
  - reflexivity.
Defined.

Lemma process_all_app cc pre rest args includes cflags ok w rs w1 :
  processed cc args includes cflags pre w rs w1 →
  process_all cc (pre ++ rest) args includes cflags ok w
  = process_all cc rest args includes cflags (forallb id rs && ok) w1.
Proof.
  intros H. revert ok. induction H as [w|path files w r w1 rs w2 E _ IH]; intros ok.
  - done.
  - cbn [app process_all]. rewrite bind_run, E, IH. f_equal.
    cbn [forallb]. unfold id. by destruct r, (forallb (λ x : bool, x) rs), ok.
Qed.

(** X10: a listed file that cannot be read ends the run with the
    exception of the read instead of an exit status ([OSError] for a file
    that is not there): the files before it have been processed and keep
    their effects, the files after it are not processed. *)
Theorem main_missing_file (cc : toolchain) (resolve : string → string)
    (rglob_c : gmap string string → string → list string) (args : Args)
    (w w1 : world) (flags : list string * list string)
    (pre rest : list string) (path : string) (rs : list bool) (e : exn) :
  let includes := default flags.1 (arg_include args) in
  let cflags := default flags.2 (arg_cflag args) in
  makefile_flags resolve (pathlib.Path (arg_makefile args)) w = (Ok flags, w) →
  collect_files rglob_c (arg_src_dir args) (arg_file args) w
    = (Ok (pre ++ path :: rest), w) →
  processed cc args includes cflags pre w rs w1 →
  read_text path w1 = (Raise e, w1) →
  main cc resolve rglob_c args w = (Raise e, w1).
Proof.
  intros includes cflags Hmf Hcf Hpre Hd. unfold main.
  rewrite bind_run, Hmf. destruct flags as [mi mc]. cbv beta iota.
  rewrite bind_run, Hcf.
  destruct (pre ++ path :: rest) as [|f fs] eqn:Ef; [by destruct pre|].
  rewrite <- Ef. rewrite bind_run. cbn [fst snd] in includes, cflags.
  fold includes cflags.
  rewrite (process_all_app cc pre (path :: rest) args includes cflags true w rs w1 Hpre).
  cbn [process_all]. rewrite bind_run.
  by rewrite (process_file_unread cc path args includes cflags w1 e w1 Hd).
Qed.

(** X10, witness: the second of three named files is not there. *)
Lemma main_missing_file_witness :
  ∃ w1,
    main cc_accept id (λ _ _, [])
      (mkArgs "src" "cc" "Makefile" None None (Some ["a.c"; "c.c"; "b.c"])
         true false) two_files
    = (Raise OSError, w1)
    ∧ length (invoked w1) = 3.
Proof.
  eexists. split.
  - eapply (main_missing_file cc_accept id (λ _ _, [])
             (mkArgs "src" "cc" "Makefile" None None (Some ["a.c"; "c.c"; "b.c"])
                true false) two_files _ ([], []) ["a.c"] ["b.c"] "c.c" [true]).
    + reflexivity.
    + reflexivity.
    + eapply processed_cons; [vm_compute; reflexivity|apply processed_nil].
    + reflexivity.
  - reflexivity.
Defined.

(** ** Splitting the flag variables *)

Lemma shlex_go_plain s :
  string_forallb shlex_plain s = true →
  (∀ esc tok, ∃ toks,
     shlex_go s LexSpace esc tok false = Some toks
     ∧ Forall (λ t, t ≠ EmptyString
                    ∧ string_forallb (λ c, negb (shlex_whitespace c)) t = true) toks
     ∧ Py.join toks = string_filter (λ c, negb (shlex_whitespace c)) s)
  ∧ (∀ esc tok,
       string_forallb (λ c, negb (shlex_whitespace c)) tok = true →
       ∃ toks,
         shlex_go s LexWord esc tok false = Some toks
         ∧ Forall (λ t, t ≠ EmptyString
                        ∧ string_forallb (λ c, negb (shlex_whitespace c)) t = true) toks
         ∧ Py.join toks = tok +:+ string_filter (λ c, negb (shlex_whitespace c)) s).
Proof.
  induction s as [|c r IH]; intros Hp.
  - split.
    + intros esc tok. exists []. by repeat split.
    + intros esc tok Htok. cbn [shlex_go]. rewrite orb_false_r.
      destruct tok as [|a tok'].
      * exists []. by repeat split.
      * exists [String a tok']. split; [done|]. split.
        -- by repeat constructor.
        -- cbn [Py.join string_filter]. by rewrite !append_nil_r.
  - cbn [string_forallb] in Hp. apply andb_true_iff in Hp as [Hc Hr].
    unfold shlex_plain in Hc. apply andb_true_iff in Hc as [Hq Hb].
    apply negb_true_iff in Hq, Hb.
    destruct (IH Hr) as [IH1 IH2]. split.
    + intros esc tok. cbn [shlex_go string_filter].
      destruct (shlex_whitespace c) eqn:Hw; cbn [negb].
      * apply IH1.
      * rewrite Hb, Hq.
        destruct (IH2 esc (String c EmptyString)) as (toks & E & Hg & Hj).
        { cbn. by rewrite Hw. }
        exists toks. by rewrite E, Hj.
    + intros esc tok Htok. cbn [shlex_go string_filter].
      destruct (shlex_whitespace c) eqn:Hw; cbn [negb].
      * rewrite orb_false_r. destruct tok as [|a tok'].
        -- cbn [Py.truthy]. apply IH1.
        -- cbn [Py.truthy].
           destruct (IH1 LexSpace EmptyString) as (toks & E & Hg & Hj).
           exists (String a tok' :: toks). rewrite E. split; [done|]. split.
           ++ by constructor.
           ++ cbn [Py.join]. by rewrite Hj.
      * rewrite Hb, Hq.
        destruct (IH2 esc (tok +:+ String c EmptyString)) as (toks & E & Hg & Hj).
        { rewrite string_forallb_app, Htok. cbn. by rewrite Hw. }
        exists toks. rewrite E, Hj. by rewrite append_assoc.
Qed.

(** X11: a value without quotes and backslashes is always split, never
    rejected: the tokens are non-empty, hold no white space, and put
    together they are the value without its white space. *)
Theorem shlex_split_plain (s : string) (w : world) :
  string_forallb shlex_plain s = true →
  ∃ toks,
    shlex_split s w = (Ok toks, w)
    ∧ Forall (λ t, t ≠ EmptyString
                   ∧ string_forallb (λ c, negb (shlex_whitespace c)) t = true) toks
    ∧ Py.join toks = string_filter (λ c, negb (shlex_whitespace c)) s.
Proof.
  intros Hp. destruct (shlex_go_plain s Hp) as [H _].
  destruct (H LexSpace EmptyString) as (toks & E & Hg & Hj).
  exists toks. unfold shlex_split. by rewrite E.
Qed.

(** X11, witness. *)
Lemma shlex_split_plain_witness :
  ∃ toks,
    shlex_split "-Iinc  -Ivendor " empty_world = (Ok toks, empty_world)
    ∧ Forall (λ t, t ≠ EmptyString
                   ∧ string_forallb (λ c, negb (shlex_whitespace c)) t = true) toks
    ∧ Py.join toks = "-Iinc-Ivendor".
Proof.
  exact (shlex_split_plain "-Iinc  -Ivendor " empty_world eq_refl).
Defined.

Lemma shlex_go_open_quote s :
  string_forallb no_single_quote s = true →
  (∀ st esc tok q, st = LexSpace ∨ st = LexWord → odd_quotes s = true →
     shlex_go s st esc tok q = None)
  ∧ (∀ esc tok q, odd_quotes s = false →
       shlex_go s (LexQuote DQ) esc tok q = None).
Proof.
  induction s as [|c r IH]; intros Hp.
  - split; [by intros|done].
  - cbn [string_forallb] in Hp. apply andb_true_iff in Hp as [Hc Hr].
    unfold no_single_quote in Hc. apply andb_true_iff in Hc as [Hq Hb].
    apply negb_true_iff in Hq, Hb.
    destruct (IH Hr) as [IH1 IH2].
    cbn [odd_quotes]. destruct (Ascii.eqb c DQ) eqn:Hd.
    + apply Ascii.eqb_eq in Hd as ->. split.
      * intros st esc tok q [-> | ->] Ho; cbn [shlex_go];
          change (shlex_whitespace DQ) with false;
          change (Ascii.eqb DQ BACKSLASH) with false;
          change (shlex_quote DQ) with true; cbv iota;
          apply IH2; by destruct (odd_quotes r).
      * intros esc tok q Ho. cbn [shlex_go]. rewrite Ascii.eqb_refl.
        apply IH1; [by right|]. by destruct (odd_quotes r).
    + assert (Hsq : shlex_quote c = false) by (unfold shlex_quote; by rewrite Hq, Hd).
      cbn [xorb]. split.
      * intros st esc tok q [-> | ->] Ho; cbn [shlex_go]; rewrite Hsq, Hb.
        -- destruct (shlex_whitespace c); apply IH1; auto.
        -- destruct (shlex_whitespace c).
           ++ destruct (Py.truthy tok || q).
              ** by rewrite IH1 by auto.
              ** apply IH1; auto.
           ++ apply IH1; auto.
      * intros esc tok q Ho. cbn [shlex_go]. rewrite Hd, Hb. cbn [andb].
        by apply IH2.
Qed.

(** X12: when the value of [INCLUDES] or of [CFLAGS] holds an odd number
    of double quotes, and no single quote or backslash, the quotation is
    left open and [makefile_flags] fails with [ValueError]. *)
Theorem makefile_flags_open_quote (resolve : string → string)
    (makefile : string) (w : world) (vars : gmap string string)
    (name : string) :
  let value := default EmptyString (vars !! name) in
  parse_make_vars makefile w = (Ok vars, w) →
  name = "INCLUDES" ∨ name = "CFLAGS" →
  string_forallb no_single_quote value = true →
  odd_quotes value = true →
  makefile_flags resolve makefile w = (Raise ValueError, w).
Proof.
  intros value Hv Hname Hp Ho.
  assert (E : shlex_go value LexSpace LexSpace EmptyString false = None).
  { destruct (shlex_go_open_quote value Hp) as [H _]. apply H; auto. }
  unfold makefile_flags. rewrite bind_run, Hv, bind_run.
  unfold shlex_split at 1.
  destruct Hname as [-> | ->].
  - fold value. by rewrite E.
  - destruct (shlex_go (default EmptyString (vars !! "INCLUDES")) _ _ _ _); [|done].
    cbn [mret M_ret]. rewrite bind_run. unfold shlex_split. fold value.
    by rewrite E.
Qed.

(** X12, witness: the value of [CFLAGS] opens a quotation and does not
    close it. *)
Lemma makefile_flags_open_quote_witness :
  let mk := "CFLAGS = -DNAME=" +:+ String DQ "x y" +:+ Py.LF in
  makefile_flags id "Makefile" (one_file "Makefile" mk)
  = (Raise ValueError, one_file "Makefile" mk).
Proof.
  apply (makefile_flags_open_quote id "Makefile"
           (one_file "Makefile" ("CFLAGS = -DNAME=" +:+ String DQ "x y" +:+ Py.LF))
           {[ "CFLAGS" := "-DNAME=" +:+ String DQ "x y" ]} "CFLAGS").
  - vm_compute. reflexivity.
  - by right.
  - reflexivity.
  - reflexivity.
Defined.

(** ** Include flags and variable references *)

(** X13: [_normalize_includes] drops the empty tokens and turns every
    other token into one flag that starts with [-I], so there are as many
    flags as non-empty tokens. *)
Theorem normalize_includes_flags (resolve : string → string)
    (include_tokens : list string) (base_dir : string) :
  Forall (λ f, Py.startswith f "-I" = true)
    (_normalize_includes resolve include_tokens base_dir)
  ∧ length (_normalize_includes resolve include_tokens base_dir)
    = length (filter (λ tok, tok ≠ EmptyString) include_tokens).
Proof.
  induction include_tokens as [|tok rest [IH1 IH2]]; [by split|].
  cbn [_normalize_includes]. rewrite filter_cons.
  destruct tok as [|a tok']; cbn [Py.truthy negb].
  - by destruct (decide _).
  - destruct (decide _) as [_|n]; [|by exfalso; apply n]. split.
    + constructor; [|done]. unfold Py.startswith. by rewrite strip_prefix_app.
    + cbn [length]. by rewrite IH2.
Qed.

Lemma is_absolute_slash s : pathlib.is_absolute (String "/" s) = true.
Proof.
  destruct s as [|a s]; [reflexivity|].
  destruct a as [[] [] [] [] [] [] [] []]; try reflexivity.
  destruct s as [|b s]; [reflexivity|].
  destruct b as [[] [] [] [] [] [] [] []]; reflexivity.
Qed.

Lemma is_absolute_inv s :
  pathlib.is_absolute s = true → ∃ r, s = String "/" r.
Proof.
  destruct s as [|a s]; [done|].
  destruct a as [[] [] [] [] [] [] [] []]; try discriminate.
  intros _. by eexists.
Qed.

Lemma root_slash s : ∃ rt, pathlib.root (String "/" s) = String "/" rt.
Proof.
  destruct s as [|a s]; [by eexists|].
  destruct a as [[] [] [] [] [] [] [] []]; try by eexists.
  destruct s as [|b s]; [by eexists|].
  destruct b as [[] [] [] [] [] [] [] []]; by eexists.
Qed.

Lemma Path_absolute s :
  pathlib.is_absolute s = true → pathlib.is_absolute (pathlib.Path s) = true.
Proof.
  intros H. destruct (is_absolute_inv s H) as (r & ->).
  unfold pathlib.Path, pathlib.render.
  destruct (root_slash r) as (rt & ->). apply is_absolute_slash.
Qed.

(** X14: a token that names an absolute path, with or without [-I] in
    front, gives the flag of that path in the form [pathlib] prints it: the
    base directory plays no part and the path is not resolved. *)
Theorem normalize_includes_absolute (resolve : string → string)
    (p base_dir : string) :
  pathlib.is_absolute p = true →
  _normalize_includes resolve ["-I" +:+ p] base_dir = ["-I" +:+ pathlib.Path p]
  ∧ _normalize_includes resolve [p] base_dir = ["-I" +:+ pathlib.Path p].
Proof.
  intros H. pose proof (Path_absolute p H) as HP.
  destruct (is_absolute_inv p H) as (r & ->). split.
  - cbn [_normalize_includes]. rewrite strip_prefix_app.
    change (Py.truthy ("-I" +:+ String "/" r)) with true. cbn [negb].
    by rewrite HP.
  - cbn [_normalize_includes Py.truthy negb].
    assert (Hs : Py.strip_prefix "-I" (String "/" r) = None) by reflexivity.
    by rewrite Hs, HP.
Qed.

(** X14, witness. *)
Lemma normalize_includes_absolute_witness :
  _normalize_includes id ["-I" +:+ "/usr//include/"] "/proj" = ["-I/usr/include"]
  ∧ _normalize_includes id ["/usr//include/"] "/proj" = ["-I/usr/include"].
Proof.
  exact (normalize_includes_absolute id "/usr//include/" "/proj" eq_refl).
Defined.

Lemma findall_refs_name acc n :
  string_forallb (λ c, negb (Ascii.eqb c ")")) n = true →
  acc +:+ n ≠ EmptyString →
  findall_refs (RefName acc) (n +:+ ")") = [acc +:+ n].
Proof.
  revert acc. induction n as [|c r IH]; intros acc Hn Hne.
  - rewrite append_nil_r in *. cbn. by destruct acc.
  - cbn [string_forallb] in Hn. apply andb_true_iff in Hn as [Hc Hr].
    apply negb_true_iff in Hc. cbn [String.append findall_refs]. rewrite Hc.
    rewrite IH; [|done|]; rewrite append_assoc; done.
Qed.

Lemma replace_go_skip old new k s :
  String.length s ≤ k → replace_go old new k s = EmptyString.
Proof.
  revert k. induction s as [|c r IH]; intros k Hk; [done|].
  cbn in Hk. destruct k as [|k]; [lia|]. cbn [replace_go]. apply IH. lia.
Qed.

Lemma startswith_refl s : Py.startswith s s = true.
Proof.
  unfold Py.startswith. rewrite <- (append_nil_r s) at 2.
  by rewrite strip_prefix_app.
Qed.

Lemma replace_whole s new : s ≠ EmptyString → replace s s new = new.
Proof.
  destruct s as [|c r]; [done|]. intros _. unfold replace.
  cbn [replace_go]. rewrite startswith_refl.
  rewrite replace_go_skip; [apply append_nil_r|]. cbn. lia.
Qed.

(** X15: a value that is one reference to a variable expands to the value
    the Makefile gives that variable, as written there and not expanded
    again, and to the empty string when the variable is not defined. *)
Theorem expand_reference (vars : gmap string string) (name : string) :
  name ≠ EmptyString →
  string_forallb (λ c, negb (Ascii.eqb c ")")) name = true →
  expand vars ("$(" +:+ name +:+ ")") = default EmptyString (vars !! name).
Proof.
  intros Hne Hn. unfold expand.
  change (findall_refs RefIdle ("$(" +:+ name +:+ ")"))
    with (findall_refs (RefName EmptyString) (name +:+ ")")).
  rewrite findall_refs_name by done. cbn [foldl String.append].
  by apply replace_whole.
Qed.

(** X15, witness: the raw value of [B] is taken, the reference in it
    stays; a name without a value gives the empty string. *)
Lemma expand_reference_witness :
  expand {[ "B" := "$(C) x"; "C" := "y" ]} "$(B)" = "$(C) x"
  ∧ expand {[ "B" := "$(C) x"; "C" := "y" ]} "$(D)" = EmptyString.
Proof.
  split.
  - exact (expand_reference {[ "B" := "$(C) x"; "C" := "y" ]} "B"
             ltac:(discriminate) eq_refl).
  - exact (expand_reference {[ "B" := "$(C) x"; "C" := "y" ]} "D"
             ltac:(discriminate) eq_refl).
Defined.

Lemma findall_refs_no_dollar s :
  string_forallb (λ c, negb (Ascii.eqb c "$")) s = true →
  findall_refs RefIdle s = [].
Proof.
  induction s as [|c r IH]; [done|]. cbn [string_forallb findall_refs].
  intros [Hc Hr]%andb_true_iff. apply negb_true_iff in Hc. rewrite Hc.
  by apply IH.
Qed.

(** X16: a Makefile whose values hold no dollar sign is read as it is
    written: the expansion changes none of its values. *)
Theorem expand_no_reference (vars : gmap string string) :
  map_Forall (λ _ v, string_forallb (λ c, negb (Ascii.eqb c "$")) v = true) vars →
  expand vars <$> vars = vars.
Proof.
  intros H. rewrite <- (map_fmap_id vars) at 3.
  apply map_fmap_ext. intros k v Hk. unfold expand.
  by rewrite (findall_refs_no_dollar v (H k v Hk)).
Qed.

(** X16, witness. *)
Lemma expand_no_reference_witness :
  expand {[ "CFLAGS" := "-Wall -O2" ]} <$> {[ "CFLAGS" := "-Wall -O2" ]}
  = ({[ "CFLAGS" := "-Wall -O2" ]} : gmap string string).
Proof.
  apply (expand_no_reference {[ "CFLAGS" := "-Wall -O2" ]}).
  by apply map_Forall_singleton.
Defined.

(** ** One compiler run *)



(** ** What rewriting leaves *)





(** X19: rewriting is idempotent on files whose lines end with a line
    feed. When an include is kept, the block of the rewritten file starts
    where the old one did and holds the kept includes and nothing else, and
    rebuilding it with all of them kept gives the rewritten file again. *)
Theorem rebuild_file_idempotent (lines : list string) (start end_ : nat)
    (block : list IncludeLine) (keep : gset string) :
  let new_lines := rebuild_file lines start end_ block keep in
  Forall lf_line lines →
  find_include_block lines = Some (start, end_, block) →
  first_kept keep (text <$> block) ≠ [] →
  ∃ end' block',
    find_include_block new_lines = Some (start, end', block')
    ∧ text <$> block' = first_kept keep (text <$> block)
    ∧ rebuild_file new_lines start end' block' (list_to_set (text <$> block'))
      = new_lines.
Proof.
  intros new_lines Hlf Hb HK.
  exists (start + length (first_kept keep (text <$> block)) + 1),
         (records start (first_kept keep (text <$> block))).
  split; [by apply rebuilt_block|]. rewrite records_text. split; [done|].
  by apply rebuilt_fixpoint.
Qed.

(** X19, witness. *)
Lemma rebuild_file_idempotent_witness :
  let block := [mkIncludeLine 0 inc_a "a.h"; mkIncludeLine 1 inc_b "b.h"] in
  let new_lines := rebuild_file [inc_a; inc_b; code_x] 0 2 block {[ inc_a ]} in
  ∃ end' block',
    find_include_block new_lines = Some (0, end', block')
    ∧ text <$> block' = first_kept {[ inc_a ]} (text <$> block)
    ∧ rebuild_file new_lines 0 end' block' (list_to_set (text <$> block'))
      = new_lines.
Proof.
  apply (rebuild_file_idempotent [inc_a; inc_b; code_x] 0 2
           [mkIncludeLine 0 inc_a "a.h"; mkIncludeLine 1 inc_b "b.h"] {[ inc_a ]}).
  - apply Forall_cons_2; [exists "#include <a.h>"; split; reflexivity|].
    apply Forall_cons_2; [exists "#include <b.h>"; split; reflexivity|].
    apply Forall_cons_2; [exists "int x;"; split; reflexivity|].
    apply Forall_nil_2.
  - reflexivity.
  - by vm_compute.
Defined.

(** ** Values of the Makefile *)

Lemma string_forallb_lstrip p s :
  string_forallb p s = true → string_forallb p (Py.lstrip s) = true.
Proof.
  induction s as [|c r IH]; [done|]. cbn [Py.lstrip].
  destruct (Py.is_space c); [|done]. cbn. intros [_ Hr]%andb_true_iff. by apply IH.
Qed.

Lemma string_forallb_strip p s :
  string_forallb p s = true → string_forallb p (Py.strip s) = true.
Proof.
  intros H. unfold Py.strip, Py.rstrip. rewrite string_forallb_rev.
  apply string_forallb_lstrip. rewrite string_forallb_rev.
  by apply string_forallb_lstrip.
Qed.

Lemma split_once_fst sep s :
  string_forallb (λ c, negb (Ascii.eqb c sep)) (split_once sep s).1 = true.
Proof.
  induction s as [|c r IH]; [done|]. cbn [split_once].
  destruct (Ascii.eqb c sep) eqn:E; [done|].
  destruct (split_once sep r) as [a b]. cbn in *. by rewrite E, IH.
Qed.

Lemma scan_assignments_Forall (P : string → Prop) raws vars :
  (∀ v, P (Py.strip (split_once "#" v).1)) →
  map_Forall (λ _, P) vars → map_Forall (λ _, P) (scan_assignments raws vars).
Proof.
  intros HP. revert vars. induction raws as [|raw rest IH]; intros vars Hv; [done|].
  cbn [scan_assignments].
  destruct (split_once "=" (Py.strip raw)) as [name [val|]]; [|by apply IH].
  destruct (negb (Py.truthy (Py.strip raw)) || Py.startswith (Py.strip raw) "#");
    [by apply IH|].
  apply IH. by apply map_Forall_insert_2.
Qed.

Lemma replace_go_forallb p old new k s :
  string_forallb p s = true → string_forallb p new = true →
  string_forallb p (replace_go old new k s) = true.
Proof.
  intros Hs Hn. revert k Hs. induction s as [|c r IH]; intros k Hs; [done|].
  cbn in Hs. apply andb_true_iff in Hs as [Hc Hr].
  cbn [replace_go]. destruct k as [|k]; [|by apply IH].
  destruct (Py.startswith (String c r) old).
  - rewrite string_forallb_app, Hn. by apply IH.
  - cbn. rewrite Hc. by apply IH.
Qed.

Lemma expand_forallb p (vars : gmap string string) value :
  map_Forall (λ _ v, string_forallb p v = true) vars →
  string_forallb p value = true → string_forallb p (expand vars value) = true.
Proof.
  intros Hv. unfold expand. generalize (findall_refs RefIdle value).
  intros refs. revert value. induction refs as [|var refs IH]; intros value H; [done|].
  cbn [foldl]. apply IH. unfold replace. apply replace_go_forallb; [done|].
  destruct (vars !! var) as [x|] eqn:E; [|done]. by apply (Hv var).
Qed.

(** X21: no value that [parse_make_vars] returns holds a [#]: what
    follows the first [#] of an assignment is cut off as a comment, and the
    expansion of references brings none back. The world is as it was. *)
Theorem parse_make_vars_no_comment (makefile : string) (w w' : world)
    (vars : gmap string string) :
  parse_make_vars makefile w = (Ok vars, w') →
  w' = w
  ∧ map_Forall (λ _ v, string_forallb (λ c, negb (Ascii.eqb c "#")) v = true)
      vars.
Proof.
  intros H. split; [by eapply parse_make_vars_world|].
  revert H. unfold parse_make_vars.
  destruct (exists_ makefile w); cbn [negb].
  - rewrite bind_run. destruct (read_text makefile w) as [[c|e] w1]; [|done].
    cbv beta zeta. unfold mret, M_ret. intros [= <- _].
    set (raw := scan_assignments _ ∅).
    assert (Hraw : map_Forall
              (λ _ v, string_forallb (λ c, negb (Ascii.eqb c "#")) v = true) raw).
    { apply (scan_assignments_Forall
               (λ v, string_forallb (λ c, negb (Ascii.eqb c "#")) v = true)).
      - intros v. apply string_forallb_strip, split_once_fst.
      - apply map_Forall_empty. }
    apply map_Forall_fmap. intros k v Hk. apply expand_forallb; [done|].
    by apply (Hraw k).
  - intros [= <- _]. apply map_Forall_empty.
Qed.

(** X21, witness: a comment after the value of [CFLAGS]. *)
Lemma parse_make_vars_no_comment_witness :
  let w := one_file "Makefile" ("CFLAGS = -Wall # warnings" +:+ Py.LF) in
  parse_make_vars "Makefile" w = (Ok {[ "CFLAGS" := "-Wall" ]}, w)
  ∧ map_Forall (λ _ v, string_forallb (λ c, negb (Ascii.eqb c "#")) v = true)
      ({[ "CFLAGS" := "-Wall" ]} : gmap string string).
Proof.
  assert (E : parse_make_vars "Makefile"
                (one_file "Makefile" ("CFLAGS = -Wall # warnings" +:+ Py.LF))
              = (Ok {[ "CFLAGS" := "-Wall" ]},
                 one_file "Makefile" ("CFLAGS = -Wall # warnings" +:+ Py.LF)))
    by (vm_compute; reflexivity).
  split; [exact E|].
  exact (proj2 (parse_make_vars_no_comment _ _ _ _ E)).
Defined.

(** ** A compiler that cannot be started *)

Lemma compile_lines_raises_world cc lines compiler includes cflags verbose w :
  cc compiler (cflags ++ includes) (Py.join lines) = None →
  let n1 := fresh (dom (tmpdir w)) in
  let n2 := fresh (dom (<[n1 := Py.join lines]> (tmpdir w))) in
  compile_lines cc lines compiler includes cflags verbose w
  = (Raise OSError,
     set_tmpdir (<[n2 := EmptyString]> (<[n1 := Py.join lines]> (tmpdir w))) w).
Proof.
  intros Hp n1 n2. unfold compile_lines, write_temp.
  rewrite bind_run. unfold NamedTemporaryFile at 1. fold n1.
  set (w1 := set_tmpdir _ w).
  assert (Hw1 : tmpdir w1 !! n1 = Some (Py.join lines)).
  { unfold w1. cbn. apply lookup_insert_eq. }
  by rewrite bind_run, (compile_check_raises cc n1 _ _ _ _ w1 _ Hw1 Hp).
Qed.

(** X22: when the compiler cannot be started, [process_file] on a file
    with an include block ends with [OSError] at the baseline: nothing is
    printed or written, and the temporary source and the empty temporary
    object file, under two names that were free, are left behind. *)
Theorem process_file_compiler_missing (cc : toolchain) (path : string)
    (args : Args) (includes cflags : list string) (w : world) (t : string) :
  let lines := splitlines true (universal_newlines t) in
  let n1 := fresh (dom (tmpdir w)) in
  let n2 := fresh (dom (<[n1 := Py.join lines]> (tmpdir w))) in
  disk w !! path = Some t →
  is_Some (find_include_block lines) →
  cc (arg_compiler args) (cflags ++ includes) (Py.join lines) = None →
  n1 ≠ n2 ∧ tmpdir w !! n1 = None ∧ tmpdir w !! n2 = None
  ∧ process_file cc path args includes cflags w
    = (Raise OSError,
       set_tmpdir (<[n2 := EmptyString]> (<[n1 := Py.join lines]> (tmpdir w)))
         w).
Proof.
  intros lines n1 n2 Hd [[[start end_] block] Hb] Hp.
  assert (H1 : tmpdir w !! n1 = None) by apply fresh_tmp.
  assert (H2 : <[n1 := Py.join lines]> (tmpdir w) !! n2 = None) by apply fresh_tmp.
  apply lookup_insert_None in H2 as [H2 Hne].
  split; [done|]. split; [done|]. split; [done|].
  unfold process_file.
  rewrite bind_run, (read_text_run _ _ _ Hd). fold lines. rewrite Hb, bind_run.
  unfold determine_needed. rewrite check_then, bind_run.
  by rewrite (compile_lines_raises_world cc lines _ _ _ _ w Hp).
Qed.

(** X22, witness: no compiler, one file with an include. *)
Lemma process_file_compiler_missing_witness :
  ∃ w',
    process_file cc_missing "a.c" (sample_args true false) [] []
      (one_file "a.c" (inc_a +:+ code_x)) = (Raise OSError, w')
    ∧ tmpdir w' = {[ 0 := inc_a +:+ code_x; 1 := EmptyString ]}
    ∧ console_out w' = [] ∧ written w' = [].
Proof.
  destruct (process_file_compiler_missing cc_missing "a.c"
              (sample_args true false) [] []
              (one_file "a.c" (inc_a +:+ code_x)) (inc_a +:+ code_x))
    as (_ & _ & _ & E).
  - reflexivity.
  - by eexists.
  - reflexivity.
  - eexists. split; [exact E|]. by vm_compute.
Defined.

(** ** What a run may change *)
















